(** * Embers: the load-proportional telemetry policy of [server.js] and the
      client driver of [public/flames.js], embedded and verified.

    Numbers are modelled in exact arithmetic: a JavaScript number is either
    [NaN] or a rational, and integers are unbounded.  Two things follow.

    - The infinities and the sign of zero are left out.  No handler divides
      by anything but a positive literal, so a handler meets an infinity only
      when the request carries one: a JSON number such as [1e999] is parsed
      to [Infinity], and so is the string ["Infinity"] once converted.  Such
      bodies are outside the model: every statement about a body is about a
      body whose numbers, and whose fields once converted to a number, are
      finite or [NaN].  (At [Infinity] the loops of [/api/logs] and
      [/api/render] do not end.)

    - Binary64 rounding is not part of the model: a computed value is the
      exact one, which the rounded one matches up to one rounding step.
      Where a statement places a computed value in an interval, the interval
      is closed at an end that rounding reaches (module [Binary64] computes
      one such end in binary64 itself). *)

From Stdlib Require Import ZArith QArith Qround Floats Lia Lqa.
From stdpp Require Import base option list strings pretty gmap.

Local Open Scope Z_scope.

(** ** JavaScript values *)

Inductive number : Type :=
| NaN
| Num (q : Q).

(** What a field of a parsed JSON body can hold.  Arrays and plain objects
    only ever meet the handlers through coercions, so they are kept as the
    string their [toString] yields. *)
Inductive value : Type :=
| VUndefined
| VNull
| VBool (b : bool)
| VNum (n : number)
| VStr (s : string)
| VObj (repr : string).

Definition of_Z (z : Z) : value := VNum (Num (inject_Z z)).

(** The builtins of the language runtime that the handlers reach through
    coercions and [Date]: the numeric reading of a string, the rendering of a
    number, and [Date.prototype.toISOString] of an instant in epoch
    milliseconds.  They are no part of the repository. *)
Class Runtime : Type := {
  StringToNumber : string -> number;
  NumberToString : number -> string;
  toISOString : Z -> string
}.

Module JS.

Definition add (a b : number) : number :=
  match a, b with
  | Num x, Num y => Num (x + y)
  | _, _ => NaN
  end.

(** [a / k] for a positive literal [k]. *)
Definition div_lit (a : number) (k : positive) : number :=
  match a with
  | Num x => Num (x / inject_Z (Zpos k))
  | NaN => NaN
  end.

(** [a < b]; every comparison with [NaN] is false. *)
Definition lt (a b : number) : bool :=
  match a, b with
  | Num x, Num y => negb (Qle_bool y x)
  | _, _ => false
  end.

Definition ceil (a : number) : number :=
  match a with
  | Num x => Num (inject_Z (Qceiling x))
  | NaN => NaN
  end.

Definition floor (a : number) : number :=
  match a with
  | Num x => Num (inject_Z (Qfloor x))
  | NaN => NaN
  end.

Definition truthy (v : value) : bool :=
  match v with
  | VUndefined | VNull => false
  | VBool b => b
  | VNum NaN => false
  | VNum (Num q) => negb (Qeq_bool q 0)
  | VStr s => negb (String.eqb s "")
  | VObj _ => true
  end.

Definition ToNumber {rt : Runtime} (v : value) : number :=
  match v with
  | VUndefined => NaN
  | VNull => Num 0
  | VBool b => Num (if b then 1 else 0)
  | VNum n => n
  | VStr s => StringToNumber s
  | VObj r => StringToNumber r
  end.

Definition ToString {rt : Runtime} (v : value) : string :=
  match v with
  | VUndefined => "undefined"
  | VNull => "null"
  | VBool b => if b then "true" else "false"
  | VNum n => NumberToString n
  | VStr s => s
  | VObj r => r
  end.

(** [n + v] with a number on the left: numeric addition unless [v] is a
    string or an object, where [+] concatenates. *)
Definition plus {rt : Runtime} (n : number) (v : value) : value :=
  match v with
  | VStr s => VStr (NumberToString n ++ s)
  | VObj r => VStr (NumberToString n ++ r)
  | _ => VNum (add n (ToNumber v))
  end.

(** [arr[i]]: reading past the end of an array gives [undefined]. *)
Definition index (arr : list string) (i : Z) : value :=
  if i <? 0 then VUndefined
  else from_option VStr VUndefined (arr !! Z.to_nat i).

(** Number of rounds of [for (let i = 0; i < bound; i++)]. *)
Definition trip_count (bound : number) : nat :=
  match bound with
  | NaN => O
  | Num q => Z.to_nat (Qceiling q)
  end.

End JS.

(** ** Telemetry emitter *)

Abbreviation Labels := (list (string * string)).

(** Modelled from the spec: a histogram, its fixed bucket boundaries and the
    values observed so far, latest first. *)
Record Histogram : Type := {
  h_bounds : list Q;
  h_observed : list Q
}.

(** Modelled from the spec: an instrument is a gauge, a counter or a
    histogram; gauges and counters hold one value per label set. *)
Inductive Instrument : Type :=
| IGauge (vals : gmap Labels number)
| ICounter (vals : gmap Labels Q)
| IHistogram (h : Histogram).

(** What an instrument call throws: on an argument that is no number, on a
    negative delta for a counter, on a name that is not registered. *)
Inductive exn : Type :=
| TypeError (what : value)
| DecreaseError
| NoSuchMetric (name : string).

(** Modelled from the spec: one line of a scrape. *)
Inductive Sample : Type :=
| SValue (name : string) (labels : Labels) (v : number)
| SBucket (name : string) (le : option Q) (n : nat)
| SSum (name : string) (total : Q)
| SCount (name : string) (n : nat).

(** What [logger.log(level, message, meta)] is called with. *)
Record LogRecord : Type := {
  level : value;
  message : value;
  fields : list (string * value)
}.

Module Emitter.

(** Modelled from the spec: the instrument registry (the prom-client package
    is a dependency, absent from the sources).  A gauge holds the last value
    set, a counter its accumulated total, a histogram the values observed;
    the spec leaves arguments that are not numbers open, and the model
    follows the package, which throws on them. *)
Definition setGauge (name : string) (labels : Labels) (v : value)
    (reg : gmap string Instrument) : exn + gmap string Instrument :=
  match reg !! name with
  | Some (IGauge vals) =>
      match v with
      | VNum n => inr (<[name := IGauge (<[labels := n]> vals)]> reg)
      | _ => inl (TypeError v)
      end
  | _ => inl (NoSuchMetric name)
  end.

(** Modelled from the spec: the amount a counter is asked to add; absent
    means 1, and a negative delta is rejected. *)
Definition amount_of (amount : value) : exn + Q :=
  match amount with
  | VUndefined | VNull => inr 1%Q
  | VNum (Num q) => if Qle_bool 0 q then inr q else inl DecreaseError
  | _ => inl (TypeError amount)
  end.

(** Modelled from the spec: [incrementCounter] adds the amount to the
    accumulated total of the labelled counter. *)
Definition incrementCounter (name : string) (labels : Labels) (amount : value)
    (reg : gmap string Instrument) : exn + gmap string Instrument :=
  match reg !! name with
  | Some (ICounter vals) =>
      match amount_of amount with
      | inr a =>
          inr (<[name := ICounter
                   (<[labels := (default 0%Q (vals !! labels) + a)%Q]> vals)]> reg)
      | inl e => inl e
      end
  | _ => inl (NoSuchMetric name)
  end.

(** Modelled from the spec: [observeHistogram] records one observation. *)
Definition observeHistogram (name : string) (v : value)
    (reg : gmap string Instrument) : exn + gmap string Instrument :=
  match reg !! name with
  | Some (IHistogram h) =>
      match v with
      | VNum (Num q) =>
          inr (<[name := IHistogram
                   {| h_bounds := h_bounds h; h_observed := q :: h_observed h |}]> reg)
      | _ => inl (TypeError v)
      end
  | _ => inl (NoSuchMetric name)
  end.

(** Modelled from the spec: the cumulative count of a bucket, the number of
    observations at or below its boundary. *)
Definition count_le (b : Q) (obs : list Q) : nat :=
  length (filter (fun q => Qle_bool q b = true) obs).

(** Modelled from the spec: the sum of the observations. *)
Definition total (obs : list Q) : Q := foldr Qplus 0%Q obs.

(** Modelled from the spec: the samples one instrument contributes to a
    scrape. *)
Definition samples_of (name : string) (i : Instrument) : list Sample :=
  match i with
  | IGauge vals => (fun kv => SValue name kv.1 kv.2) <$> map_to_list vals
  | ICounter vals => (fun kv => SValue name kv.1 (Num kv.2)) <$> map_to_list vals
  | IHistogram h =>
      ((fun b => SBucket name (Some b) (count_le b (h_observed h))) <$> h_bounds h)
      ++ [SBucket name None (length (h_observed h));
          SSum name (total (h_observed h));
          SCount name (length (h_observed h))]
  end.

(** Modelled from the spec: [scrapeSnapshot], the state of every registered
    instrument (the text layout of the exposition format is left out). *)
Definition scrapeSnapshot (reg : gmap string Instrument) : list Sample :=
  map_to_list reg ≫= (fun kv => samples_of kv.1 kv.2).

End Emitter.

(** ** The server process *)

(** The two sources of non-determinism, as oracles: the [k]-th result of
    [Math.random()] and the [k]-th reading of the clock ([Date.now()] or
    [new Date()]), in epoch milliseconds. *)
Record World : Type := {
  random : nat -> Q;
  clock : nat -> Z
}.

Record Server : Type := {
  registry : gmap string Instrument;
  console : list LogRecord;
  rand_calls : nat;
  clock_reads : nat;
  startTime : Z
}.

Inductive outcome (A : Type) : Type :=
| Returned (a : A)
| Threw (e : exn).
Arguments Returned {A} a.
Arguments Threw {A} e.

(** A computation of the process: it may throw, and what it did to the state
    before throwing stays done. *)
Definition M (A : Type) : Type := Server -> outcome A * Server.

#[export] Instance M_ret : MRet M := fun A a s => (Returned a, s).
#[export] Instance M_bind : MBind M := fun A B f m s =>
  match m s with
  | (Returned a, s') => f a s'
  | (Threw e, s') => (Threw e, s')
  end.

Record Response : Type := {
  status : nat;
  payload : list (string * value)
}.

Definition with_registry (r : gmap string Instrument) (s : Server) : Server :=
  {| registry := r; console := console s; rand_calls := rand_calls s;
     clock_reads := clock_reads s; startTime := startTime s |}.

Definition field (body : gmap string value) (k : string) : value :=
  default VUndefined (body !! k).

Definition logTypes : list string := ["info"; "warn"; "error"]%string.

Definition messages : list string :=
  ["Flame particle physics calculated";
   "Heat dissipation computed";
   "Oxygen consumption measured";
   "Ember glow intensity adjusted";
   "Flame color spectrum updated";
   "Combustion reaction simulated";
   "Thermal dynamics processed";
   "Flame turbulence calculated"]%string.

Definition buckets : list Q := [1; 5; 10; 25; 50; 100; 250; 500]%Q.

(** The six instruments [server.js] creates, as they are at start-up: a gauge
    or counter without label names starts at 0, the labelled click counter
    starts without any series.  The registry of the model holds these six
    only; the default process metrics that [collectDefaultMetrics] registers
    beside them are the package's own, are touched by no handler, and are
    not modelled. *)
Definition instruments : gmap string Instrument :=
  list_to_map
    [("embers_flame_count", IGauge {[ [] := Num 0 ]});
     ("embers_render_duration_ms",
        IHistogram {| h_bounds := buckets; h_observed := [] |});
     ("embers_button_clicks_total", ICounter ∅);
     ("embers_uptime_seconds", IGauge {[ [] := Num 0 ]});
     ("embers_temperature_celsius", IGauge {[ [] := Num 0 ]});
     ("embers_sparks_emitted_total", ICounter {[ [] := 0%Q ]})]%string.

Section Process.
Context {rt : Runtime} (w : World).

Definition Math_random : M Q := fun s =>
  (Returned (random w (rand_calls s)),
   {| registry := registry s; console := console s;
      rand_calls := S (rand_calls s);
      clock_reads := clock_reads s; startTime := startTime s |}).

Definition Date_now : M Z := fun s =>
  (Returned (clock w (clock_reads s)),
   {| registry := registry s; console := console s;
      rand_calls := rand_calls s;
      clock_reads := S (clock_reads s); startTime := startTime s |}).

(** [logger.log(level, message, meta)] on the console transport. *)
Definition logger_log (lvl msg : value) (meta : list (string * value)) : M unit :=
  fun s =>
    (Returned tt,
     {| registry := registry s;
        console := console s ++ [{| level := lvl; message := msg; fields := meta |}];
        rand_calls := rand_calls s;
        clock_reads := clock_reads s; startTime := startTime s |}).

Definition logger_info (msg : string) (meta : list (string * value)) : M unit :=
  logger_log (VStr "info") (VStr msg) meta.

Definition instrument (op : gmap string Instrument -> exn + gmap string Instrument)
    : M unit := fun s =>
  match op (registry s) with
  | inr r => (Returned tt, with_registry r s)
  | inl e => (Threw e, s)
  end.

Definition get_startTime : M Z := fun s => (Returned (startTime s), s).

(** [n] rounds of [body] on the indices from [i] on. *)
Fixpoint for_from (i : Z) (n : nat) (body : Z -> M unit) : M unit :=
  match n with
  | O => mret tt
  | S n' => body i ;; for_from (i + 1) n' body
  end.

(** [for (...; i < bound; i++) body] from index [i], the test written out;
    [fuel] bounds the number of rounds. *)
Fixpoint for_test (fuel : nat) (i : Z) (bound : number) (body : Z -> M unit) : M unit :=
  match fuel with
  | O => mret tt
  | S fuel' =>
      if JS.lt (Num (inject_Z i)) bound
      then body i ;; for_test fuel' (i + 1) bound body
      else mret tt
  end.

(** [for (let i = 0; i < bound; i++) body], with the fuel that lets the test
    end the loop ([for_loop_exits]). *)
Definition for_loop (bound : number) (body : Z -> M unit) : M unit :=
  for_test (JS.trip_count bound) 0 bound body.

Definition res_json (body : list (string * value)) : M Response :=
  mret {| status := 200; payload := body |}.

(** [app.post('/api/flames')] *)
Definition api_flames (body : gmap string value) : M Response :=
  let count := field body "count" in
  let action := field body "action" in
  instrument (Emitter.setGauge "embers_flame_count" [] count) ;;
  (if JS.truthy action
   then instrument (Emitter.incrementCounter "embers_button_clicks_total"
                      [("button_type", JS.ToString action)] VUndefined)
   else mret tt) ;;
  t ← Date_now ;
  logger_info "Flame count updated"
    [("flame_count", count); ("action", action);
     ("timestamp", VStr (toISOString t)); ("user_action", VBool true)] ;;
  u ← Math_random ;
  instrument (Emitter.setGauge "embers_temperature_celsius" []
                (VNum (Num (800 + u * 400)))) ;;
  u' ← Math_random ;
  instrument (Emitter.incrementCounter "embers_sparks_emitted_total" []
                (JS.plus (Num (inject_Z (Qfloor (u' * 10)))) count)) ;;
  res_json [("success", VBool true); ("count", count)].

(** [app.post('/api/render')] *)
Definition api_render (body : gmap string value) : M Response :=
  let duration := field body "duration" in
  let flameCount := field body "flameCount" in
  instrument (Emitter.observeHistogram "embers_render_duration_ms" duration) ;;
  let logCount := JS.ceil (JS.div_lit (JS.ToNumber flameCount) 5) in
  for_loop logCount (fun i =>
    u ← Math_random ;
    let lvl := if JS.lt (Num (4 # 5)) (Num u) then "warn" else "info" in
    t ← Date_now ;
    t' ← Date_now ;
    logger_log (VStr lvl) (VStr "Flame rendered")
      [("flame_index", of_Z i); ("duration_ms", duration);
       ("total_flames", flameCount); ("timestamp", VStr (toISOString t));
       ("render_cycle", VNum (JS.floor (JS.div_lit (Num (inject_Z t')) 1000)))]) ;;
  res_json [("success", VBool true)].

(** [app.post('/api/logs')] *)
Definition api_logs (body : gmap string value) : M Response :=
  let flameCount := field body "flameCount" in
  let numLogs := JS.ceil (JS.div_lit (JS.ToNumber flameCount) 3) in
  for_loop numLogs (fun i =>
    u ← Math_random ;
    let lvl := JS.index logTypes (Qfloor (u * inject_Z (Z.of_nat (length logTypes)))) in
    u' ← Math_random ;
    let msg := JS.index messages (Qfloor (u' * inject_Z (Z.of_nat (length messages)))) in
    u'' ← Math_random ;
    t ← Date_now ;
    logger_log lvl msg
      [("flame_count", flameCount); ("random_value", VNum (Num (u'' * 100)));
       ("timestamp", VStr (toISOString t))]) ;;
  res_json [("success", VBool true); ("logsGenerated", VNum numLogs)].

(** [app.get('/health')] *)
Definition health : M Response :=
  logger_info "Health check performed" [] ;;
  t ← Date_now ;
  t0 ← get_startTime ;
  res_json [("status", VStr "healthy");
            ("uptime", VNum (JS.div_lit (Num (inject_Z (t - t0))) 1000))].

(** The callback of [setInterval(..., 1000)]. *)
Definition uptime_tick : M unit :=
  t ← Date_now ;
  t0 ← get_startTime ;
  instrument (Emitter.setGauge "embers_uptime_seconds" []
                (VNum (JS.div_lit (Num (inject_Z (t - t0))) 1000))).

(** The process once [app.listen] has called back: [startTime] was read
    first, then the start-up record was logged. *)
Definition boot (port : value) : Server :=
  {| registry := instruments;
     console := [{| level := VStr "info"; message := VStr "Embers server started";
                    fields := [("port", port);
                               ("timestamp", VStr (toISOString (clock w 1)))] |}];
     rand_calls := 0;
     clock_reads := 2;
     startTime := clock w 0 |}.

Inductive Event : Type :=
| PostFlames (body : gmap string value)
| PostRender (body : gmap string value)
| PostLogs (body : gmap string value)
| GetMetrics
| GetHealth
| Tick.

Inductive Reply : Type :=
| Json (r : Response)
| Exposition (samples : list Sample)
| ServerError (e : exn)
| NoReply.

(** What the HTTP layer sends back: the handler's JSON, or a server error
    when the handler threw. *)
Definition reply_of (r : outcome Response * Server) : Reply * Server :=
  match r with
  | (Returned x, s) => (Json x, s)
  | (Threw e, s) => (ServerError e, s)
  end.

Definition dispatch (ev : Event) (s : Server) : Reply * Server :=
  match ev with
  | PostFlames body => reply_of (api_flames body s)
  | PostRender body => reply_of (api_render body s)
  | PostLogs body => reply_of (api_logs body s)
  | GetMetrics => (Exposition (Emitter.scrapeSnapshot (registry s)), s)
  | GetHealth => reply_of (health s)
  | Tick => (NoReply, (uptime_tick s).2)
  end.

Fixpoint run (evs : list Event) (s : Server) : list Reply * Server :=
  match evs with
  | [] => ([], s)
  | ev :: evs' =>
      let '(r, s') := dispatch ev s in
      let '(rs, s'') := run evs' s' in
      (r :: rs, s'')
  end.

End Process.

(** ** The client driver ([public/flames.js])

    The button, keyboard and resize handlers with what they call.  The frame
    loop ([animate]) and the continuations that run when a response arrives
    are not modelled; a request is recorded when [fetch] is called. *)

Module Client.

Record Particle : Type := {
  p_x : Q; p_y : Q; p_vx : Q; p_vy : Q; p_life : Q; p_size : Q; p_hue : Q
}.

Record Flame : Type := {
  baseX : Q;
  baseY : Q;
  particles : list Particle
}.

Inductive Request : Type :=
| FlameUpdate (count : Z) (action : string)
| RenderMetrics (duration : Q) (count : Z)
| GenerateLogs (count : Z).

Record Driver : Type := {
  width : Q;
  height : Q;
  flameCount : Z;
  flames : list Flame;
  tracesGenerated : Z;
  logsGenerated : Z;
  shownCount : Z;
  shownStats : Z * Z;
  draws : nat;
  sent : list Request
}.

Inductive UserEvent : Type :=
| ClickIncrease
| ClickDecrease
| KeyDown (key : string)
| Resize (innerWidth innerHeight : Q).

Section Driver.
Context (w : World).

(** [createParticles]: [n] particles pushed at the base point, four draws
    each, in the order the object literal reads them. *)
Fixpoint createParticles (n : nat) (x y : Q) (k : nat) : list Particle :=
  match n with
  | O => []
  | S n' =>
      {| p_x := x; p_y := y;
         p_vx := ((random w k - (1 # 2)) * 2)%Q;
         p_vy := (- random w (k + 1) * 3 - 2)%Q;
         p_life := 1%Q;
         p_size := (random w (k + 2) * 8 + 2)%Q;
         p_hue := (random w (k + 3) * 60 + 0)%Q |}
      :: createParticles n' x y (k + 4)
  end.

(** The loop of [initFlames], from index [i], [n] flames to go. *)
Fixpoint layout (n : nat) (i : Z) (spacing h : Q) (k : nat) : list Flame :=
  match n with
  | O => []
  | S n' =>
      let x := (spacing * inject_Z (i + 1))%Q in
      let y := (h * (7 # 10) + (random w k - (1 # 2)) * 100)%Q in
      {| baseX := x; baseY := y; particles := createParticles 20 x y (k + 1) |}
      :: layout n' (i + 1) spacing h (k + 81)
  end.

Definition updateStats (d : Driver) : Driver :=
  {| width := width d; height := height d; flameCount := flameCount d;
     flames := flames d; tracesGenerated := tracesGenerated d;
     logsGenerated := logsGenerated d; shownCount := shownCount d;
     shownStats := (tracesGenerated d, logsGenerated d);
     draws := draws d; sent := sent d |}.

Definition sendTraceData (d : Driver) : Driver :=
  updateStats
    {| width := width d; height := height d; flameCount := flameCount d;
       flames := flames d;
       tracesGenerated := tracesGenerated d + flameCount d;
       logsGenerated := logsGenerated d; shownCount := shownCount d;
       shownStats := shownStats d; draws := draws d; sent := sent d |}.

Definition initFlames (d : Driver) : Driver :=
  let n := Z.to_nat (flameCount d) in
  let spacing := (width d / inject_Z (flameCount d + 1))%Q in
  sendTraceData
    {| width := width d; height := height d; flameCount := flameCount d;
       flames := layout n 0 spacing (height d) (draws d);
       tracesGenerated := tracesGenerated d;
       logsGenerated := logsGenerated d; shownCount := shownCount d;
       shownStats := shownStats d; draws := draws d + 81 * n; sent := sent d |}.

(** [sendFlameUpdate(action)] up to the call of [fetch]. *)
Definition sendFlameUpdate (action : string) (d : Driver) : Driver :=
  {| width := width d; height := height d; flameCount := flameCount d;
     flames := flames d; tracesGenerated := tracesGenerated d;
     logsGenerated := logsGenerated d; shownCount := shownCount d;
     shownStats := shownStats d; draws := draws d;
     sent := sent d ++ [FlameUpdate (flameCount d) action] |}.

Definition setFlameCount (n : Z) (d : Driver) : Driver :=
  {| width := width d; height := height d; flameCount := n;
     flames := flames d; tracesGenerated := tracesGenerated d;
     logsGenerated := logsGenerated d; shownCount := n;
     shownStats := shownStats d; draws := draws d; sent := sent d |}.

Definition increaseBtn (d : Driver) : Driver :=
  if flameCount d <? 500
  then sendFlameUpdate "increase" (initFlames (setFlameCount (flameCount d + 5) d))
  else d.

Definition decreaseBtn (d : Driver) : Driver :=
  if 5 <? flameCount d
  then sendFlameUpdate "decrease" (initFlames (setFlameCount (flameCount d - 5) d))
  else d.

Definition resize (innerWidth innerHeight : Q) (d : Driver) : Driver :=
  initFlames
    {| width := innerWidth; height := innerHeight; flameCount := flameCount d;
       flames := flames d; tracesGenerated := tracesGenerated d;
       logsGenerated := logsGenerated d; shownCount := shownCount d;
       shownStats := shownStats d; draws := draws d; sent := sent d |}.

Definition keydown (key : string) (d : Driver) : Driver :=
  if String.eqb key "+" || String.eqb key "=" then increaseBtn d
  else if String.eqb key "-" || String.eqb key "_" then decreaseBtn d
  else d.

Definition handle (e : UserEvent) (d : Driver) : Driver :=
  match e with
  | ClickIncrease => increaseBtn d
  | ClickDecrease => decreaseBtn d
  | KeyDown key => keydown key d
  | Resize iw ih => resize iw ih d
  end.

(** The script's top level up to the first [initFlames()]: ten flames.  The
    page's own text for the count is not in the sources and is taken to show
    the initial ten. *)
Definition start (innerWidth innerHeight : Q) : Driver :=
  updateStats
    (initFlames
       {| width := innerWidth; height := innerHeight; flameCount := 10;
          flames := []; tracesGenerated := 0; logsGenerated := 0;
          shownCount := 10; shownStats := (0, 0); draws := 0; sent := [] |}).

Definition play (evs : list UserEvent) (d : Driver) : Driver :=
  foldl (fun d e => handle e d) d evs.

End Driver.

(** The load level stays on the grid of fives between 5 and 500. *)
Definition in_range (d : Driver) : Prop :=
  5 <= flameCount d <= 500 /\ (flameCount d mod 5 = 0).

End Client.

(** ** A runtime and a world to run the model on closed inputs

    Every theorem below holds for all runtimes and worlds; these two are the
    ones the closed examples are evaluated in. *)

Module Sample.

Definition digit (c : Ascii.ascii) : option Z :=
  let n := Z.of_N (Ascii.N_of_ascii c) in
  if (48 <=? n) && (n <=? 57) then Some (n - 48) else None.

Fixpoint digits (acc : Z) (s : string) : option Z :=
  match s with
  | EmptyString => Some acc
  | String c s' => d ← digit c ; digits (10 * acc + d) s'
  end.

(** Signed decimal integers and the empty string; anything else reads as
    [NaN] here. *)
Definition string_to_number (s : string) : number :=
  match s with
  | EmptyString => Num 0
  | String c (String c' s') =>
      if Ascii.eqb c (Ascii.ascii_of_nat 45)
      then from_option (fun z => Num (inject_Z (- z))) NaN (digits 0 (String c' s'))
      else from_option (fun z => Num (inject_Z z)) NaN (digits 0 s)
  | _ => from_option (fun z => Num (inject_Z z)) NaN (digits 0 s)
  end.

(** Integers in decimal; a proper fraction is shown as its quotient. *)
Definition number_to_string (n : number) : string :=
  match n with
  | NaN => "NaN"
  | Num q =>
      let r := Qred q in
      if (Zpos (Qden r) =? 1) then pretty (Qnum r)
      else pretty (Qnum r) ++ "/" ++ pretty (Zpos (Qden r))
  end.

Definition pad (width : nat) (z : Z) : string :=
  let d := pretty z in
  String.concat "" (replicate (width - String.length d) "0"%string) ++ d.

(** The proleptic Gregorian date of a day count since 1970-01-01. *)
Definition civil (days : Z) : Z * Z * Z :=
  let z := days + 719468 in
  let era := z / 146097 in
  let doe := z mod 146097 in
  let yoe := (doe - doe / 1460 + doe / 36524 - doe / 146096) / 365 in
  let doy := doe - (365 * yoe + yoe / 4 - yoe / 100) in
  let mp := (5 * doy + 2) / 153 in
  let d := doy - (153 * mp + 2) / 5 + 1 in
  let m := if mp <? 10 then mp + 3 else mp - 9 in
  let y := yoe + era * 400 + (if m <=? 2 then 1 else 0) in
  (y, m, d).

Definition to_iso_string (ms : Z) : string :=
  let '(y, m, d) := civil (ms / 86400000) in
  let t := ms mod 86400000 in
  pad 4 y ++ "-" ++ pad 2 m ++ "-" ++ pad 2 d ++ "T"
    ++ pad 2 (t / 3600000) ++ ":" ++ pad 2 (t / 60000 mod 60) ++ ":"
    ++ pad 2 (t / 1000 mod 60) ++ "." ++ pad 3 (t mod 1000) ++ "Z".

Definition runtime : Runtime := {|
  StringToNumber := string_to_number;
  NumberToString := number_to_string;
  toISOString := to_iso_string
|}.

(** Draws 0, 0.7, 0.4, 0.1, ... and a clock that advances a quarter of a
    second per reading. *)
Definition world : World := {|
  random := fun k => Z.of_nat (7 * k mod 10) # 10;
  clock := fun k => 1700000000000 + 250 * Z.of_nat k
|}.

Definition server : Server := boot (rt := runtime) world (of_Z 3000).


End Sample.

(** ** Reading the registry *)

Inductive kind : Type :=
| KGauge
| KCounter
| KHistogram (bounds : list Q).

Definition kind_of (i : Instrument) : kind :=
  match i with
  | IGauge _ => KGauge
  | ICounter _ => KCounter
  | IHistogram h => KHistogram (h_bounds h)
  end.

(** The registry holds the start-up instruments, kind by kind. *)
Definition wired (reg : gmap string Instrument) : Prop :=
  kind_of <$> reg = kind_of <$> instruments.

Definition gauge_at (reg : gmap string Instrument) (name : string) (labels : Labels)
    : option number :=
  match reg !! name with
  | Some (IGauge vals) => vals !! labels
  | _ => None
  end.

Definition counter_at (reg : gmap string Instrument) (name : string) (labels : Labels)
    : Q :=
  match reg !! name with
  | Some (ICounter vals) => default 0%Q (vals !! labels)
  | _ => 0%Q
  end.

Definition observed_at (reg : gmap string Instrument) (name : string) : list Q :=
  match reg !! name with
  | Some (IHistogram h) => h_observed h
  | _ => []
  end.

Definition bounds_at (reg : gmap string Instrument) (name : string) : list Q :=
  match reg !! name with
  | Some (IHistogram h) => h_bounds h
  | _ => []
  end.

(** [Math.random()] returns a number in [[0, 1)]. *)
Definition unit_draws (w : World) : Prop :=
  forall k, (0 <= random w k)%Q /\ (random w k < 1)%Q.


(** The registry after a successful [set], [inc] and [observe]. *)
Definition put_gauge (name : string) (labels : Labels) (n : number)
    (reg : gmap string Instrument) : gmap string Instrument :=
  match reg !! name with
  | Some (IGauge vals) => <[name := IGauge (<[labels := n]> vals)]> reg
  | _ => reg
  end.

Definition add_counter (name : string) (labels : Labels) (a : Q)
    (reg : gmap string Instrument) : gmap string Instrument :=
  match reg !! name with
  | Some (ICounter vals) =>
      <[name := ICounter (<[labels := (default 0%Q (vals !! labels) + a)%Q]> vals)]> reg
  | _ => reg
  end.

Definition add_observation (name : string) (q : Q)
    (reg : gmap string Instrument) : gmap string Instrument :=
  match reg !! name with
  | Some (IHistogram h) =>
      <[name := IHistogram {| h_bounds := h_bounds h; h_observed := q :: h_observed h |}]> reg
  | _ => reg
  end.

(** ** What the rounds of the two logging loops write *)

Section Rounds.
Context {rt : Runtime} (w : World).

(** The record of a round of the [/api/logs] loop that starts with [k] draws
    made and [c] clock readings taken. *)
Definition logs_record (flameCount : value) (k c : nat) : LogRecord :=
  {| level := JS.index logTypes
                (Qfloor (random w k * inject_Z (Z.of_nat (length logTypes))));
     message := JS.index messages
                  (Qfloor (random w (k + 1) * inject_Z (Z.of_nat (length messages))));
     fields := [("flame_count", flameCount);
                ("random_value", VNum (Num (random w (k + 2) * 100)));
                ("timestamp", VStr (toISOString (clock w c)))] |}.

(** The record of round [i] of the [/api/render] loop. *)
Definition render_record (duration flameCount : value) (i : Z) (k c : nat) : LogRecord :=
  {| level := VStr (if JS.lt (Num (4 # 5)) (Num (random w k)) then "warn" else "info");
     message := VStr "Flame rendered";
     fields := [("flame_index", of_Z i); ("duration_ms", duration);
                ("total_flames", flameCount);
                ("timestamp", VStr (toISOString (clock w c)));
                ("render_cycle",
                 VNum (JS.floor (JS.div_lit (Num (inject_Z (clock w (c + 1)))) 1000)))] |}.

(** The state after [n] rounds that each write one record, make [dk] draws
    and take [dc] clock readings. *)
Definition after_rounds (record : nat -> LogRecord) (dk dc n : nat) (s : Server) : Server :=
  {| registry := registry s;
     console := console s ++ (record <$> seq 0 n);
     rand_calls := rand_calls s + dk * n;
     clock_reads := clock_reads s + dc * n;
     startTime := startTime s |}.

End Rounds.

(** ** Binary64

    The temperature expression of [/api/flames], [800 + Math.random() * 400],
    evaluated in IEEE 754 double precision, as the engine does. *)
Module Binary64.

(** [800 + Math.random() * 400], as the language computes it. *)
Definition temperature (u : float) : float := (800 + u * 400)%float.


End Binary64.

(** The same expression with the rounding of its two operations made
    explicit: [rnd] takes the exact result of an operation to the number the
    operation returns. *)
Module Rounded.

Definition temperature (rnd : Q -> Q) (u : Q) : Q := rnd (800 + rnd (u * 400))%Q.

End Rounded.

(** ** Sequences of instrument operations *)

Inductive Op : Type :=
| OpSet (name : string) (labels : Labels) (v : value)
| OpInc (name : string) (labels : Labels) (amount : value)
| OpObserve (name : string) (v : value).

(** One call on the registry; a call that throws leaves it as it was. *)
Definition apply_op (op : Op) (reg : gmap string Instrument) : gmap string Instrument :=
  let r := match op with
           | OpSet name labels v => Emitter.setGauge name labels v reg
           | OpInc name labels amount => Emitter.incrementCounter name labels amount reg
           | OpObserve name v => Emitter.observeHistogram name v reg
           end in
  match r with
  | inr reg' => reg'
  | inl _ => reg
  end.

Definition run_ops (ops : list Op) (reg : gmap string Instrument) : gmap string Instrument :=
  foldl (fun r op => apply_op op r) reg ops.

(** [op] is a [setGauge] on this very gauge and label set. *)
Definition sets_gauge (name : string) (labels : Labels) (op : Op) : Prop :=
  match op with
  | OpSet n l _ => n = name /\ l = labels
  | _ => False
  end.

Definition is_flames (ev : Event) : Prop :=
  match ev with
  | PostFlames _ => True
  | _ => False
  end.

(** A computation keeps a relation between the state it starts in and the
    state it leaves, whether it returns or throws. *)
Definition keeps {A : Type} (R : Server -> Server -> Prop) (m : M A) : Prop :=
  forall s, R s (m s).2.

(** The relations the handlers keep: the clock only moves forward and
    [startTime] stays; the registry stays wired; and, besides, the
    flame-count gauge stays as it is. *)
Definition clock_forward (s s' : Server) : Prop :=
  (clock_reads s <= clock_reads s')%nat /\ startTime s' = startTime s.

Definition stays_wired (s s' : Server) : Prop :=
  wired (registry s) -> wired (registry s').

Definition flame_gauge_stays (s s' : Server) : Prop :=
  wired (registry s) ->
  wired (registry s')
  /\ gauge_at (registry s') "embers_flame_count" []
     = gauge_at (registry s) "embers_flame_count" [].

(** A step that touches neither the registry nor [startTime]. *)
Definition quiet (s s' : Server) : Prop :=
  registry s' = registry s /\ startTime s' = startTime s
  /\ (clock_reads s <= clock_reads s')%nat.

Definition is_gauge (reg : gmap string Instrument) (name : string) : Prop :=
  exists vals, reg !! name = Some (IGauge vals).

(** What [GET /health] answers when the uptime is [u] seconds. *)
Definition health_reply (u : Q) : Reply :=
  Json {| status := 200;
          payload := [("status", VStr "healthy"); ("uptime", VNum (Num u))] |}.

(** Later readings of the clock are not earlier instants. *)
Definition clock_monotone (w : World) : Prop :=
  forall i j : nat, (i <= j)%nat -> clock w i <= clock w j.



(** ** Further relations between the states of the process *)

(** The console only ever grows at its end. *)
Definition console_grows (s s' : Server) : Prop :=
  exists recs, console s' = console s ++ recs.

(** One gauge, under every label set, stays as it is (and the registry
    stays wired). *)
Definition gauge_stays (name : string) (s s' : Server) : Prop :=
  wired (registry s) ->
  wired (registry s')
  /\ forall labels, gauge_at (registry s') name labels = gauge_at (registry s) name labels.

(** One counter, under one label set, stays as it is. *)
Definition counter_stays (name : string) (labels : Labels) (s s' : Server) : Prop :=
  wired (registry s) ->
  wired (registry s')
  /\ counter_at (registry s') name labels = counter_at (registry s) name labels.

(** The uptime gauge is unset, or holds the uptime at a reading of the clock
    that was already taken. *)
Definition uptime_is_past (w : World) (s : Server) : Prop :=
  gauge_at (registry s) "embers_uptime_seconds" [] = Some (Num 0)
  \/ exists k : nat,
       (k < clock_reads s)%nat
       /\ gauge_at (registry s) "embers_uptime_seconds" []
          = Some (Num (inject_Z (clock w k - startTime s) / inject_Z 1000)).

(** The load-change requests among the events that increment the click
    counter under the label [button_type = label]. *)
Definition counts_click {rt : Runtime} (label : string) (ev : Event) : bool :=
  match ev with
  | PostFlames body =>
      JS.truthy (field body "action")
      && String.eqb (JS.ToString (field body "action")) label
  | _ => false
  end.

(** Every load-change request among the events carries a number as its
    [count]. *)
Definition numeric_count (ev : Event) : Prop :=
  match ev with
  | PostFlames body => exists n, field body "count" = VNum n
  | _ => True
  end.

(** ** The frame loop of the client and the continuations of its requests

    [Flame.update], [animate] without what it paints on the canvas,
    [sendRenderMetrics], [generateLogs], the timer of the initial send, and
    what runs when a response arrives. *)

Module Page.
Import Client.

(** The body of the callback of [forEach] in [Flame.update], up to its
    test: one particle, one frame older. *)
Definition advance (p : Particle) : Particle :=
  {| p_x := (p_x p + p_vx p)%Q;
     p_y := (p_y p + p_vy p)%Q;
     p_vx := p_vx p;
     p_vy := (p_vy p - (5 # 100))%Q;
     p_life := (p_life p - (1 # 100))%Q;
     p_size := (p_size p * (97 # 100))%Q;
     p_hue := p_hue p |}.

(** [this.particles.forEach((p, index) => ...)] with the [splice] inside it.
    [forEach] fixes its number of rounds when it starts ([n] of them are
    left) and visits the indices in order; a round whose index is past the
    end of the array does nothing.  Removing the particle at [k] moves the
    next one into its place, which the round for [k + 1] then passes over. *)
Fixpoint forEach (n k : nat) (ps : list Particle) : list Particle :=
  match n with
  | O => ps
  | S n' =>
      match ps !! k with
      | None => forEach n' (S k) ps
      | Some p =>
          let p' := advance p in
          if Qle_bool (p_life p') 0
          then forEach n' (S k) (delete k ps)
          else forEach n' (S k) (<[k := p']> ps)
      end
  end.

Record State : Type := {
  driver : Driver;
  frameCount : Z;
  lastFrameTime : Z;
  fps : option Z;
  shownFps : option Z
}.

(** What the page reacts to: a user event, a frame, the one-second timeout,
    and the responses to its load-change and render requests.  The response
    to a log request is handled by [generateLogs_done] below, which depends
    on the reply's content. *)
Inductive Input : Type :=
| User (e : UserEvent)
| Frame (now : Z) (renderDuration : Q)
| InitialTimeout
| FlameUpdateDone (ok : bool)
| RenderMetricsDone (ok : bool).

(** [a % b === 0] on integers: the remainder takes the sign of [a], and a
    remainder by zero is [NaN], which equals nothing. *)
Definition rem_is_zero (a b : Z) : bool :=
  if b =? 0 then false else Z.rem a b =? 0.

(** [Math.round(1000 / elapsed)]; [None] stands for [Infinity], the
    quotient by zero. *)
Definition fps_of (elapsed : Z) : option Z :=
  if elapsed =? 0 then None
  else Some (Qfloor (inject_Z 1000 / inject_Z elapsed + (1 # 2))).

Definition with_flames (fs : list Flame) (k : nat) (d : Driver) : Driver :=
  {| width := width d; height := height d; flameCount := flameCount d;
     flames := fs; tracesGenerated := tracesGenerated d;
     logsGenerated := logsGenerated d; shownCount := shownCount d;
     shownStats := shownStats d; draws := k; sent := sent d |}.

Definition send (r : Request) (d : Driver) : Driver :=
  {| width := width d; height := height d; flameCount := flameCount d;
     flames := flames d; tracesGenerated := tracesGenerated d;
     logsGenerated := logsGenerated d; shownCount := shownCount d;
     shownStats := shownStats d; draws := draws d; sent := sent d ++ [r] |}.

(** [sendRenderMetrics(duration)] up to the call of [fetch]. *)
Definition sendRenderMetrics (duration : Q) (d : Driver) : Driver :=
  send (RenderMetrics duration (flameCount d)) d.

(** [generateLogs()] up to the call of [fetch]. *)
Definition generateLogs (d : Driver) : Driver :=
  send (GenerateLogs (flameCount d)) d.

Definition add_traces (n : Z) (d : Driver) : Driver :=
  {| width := width d; height := height d; flameCount := flameCount d;
     flames := flames d; tracesGenerated := tracesGenerated d + n;
     logsGenerated := logsGenerated d; shownCount := shownCount d;
     shownStats := shownStats d; draws := draws d; sent := sent d |}.

Definition add_logs (n : Z) (d : Driver) : Driver :=
  {| width := width d; height := height d; flameCount := flameCount d;
     flames := flames d; tracesGenerated := tracesGenerated d;
     logsGenerated := logsGenerated d + n; shownCount := shownCount d;
     shownStats := shownStats d; draws := draws d; sent := sent d |}.

Definition set_logs (n : Z) (d : Driver) : Driver :=
  {| width := width d; height := height d; flameCount := flameCount d;
     flames := flames d; tracesGenerated := tracesGenerated d;
     logsGenerated := n; shownCount := shownCount d;
     shownStats := shownStats d; draws := draws d; sent := sent d |}.

(** [logsGenerated += x] for the value [x] a reply carries.  The counter of
    the model is an integer: [None] when the sum is none (a string, [NaN], a
    fraction). *)
Definition counter_plus (n : Z) (x : value) : option Z :=
  match x with
  | VNull => Some n
  | VBool b => Some (n + (if b then 1 else 0))
  | VNum (Num q) =>
      if Zpos (Qden (Qred q)) =? 1 then Some (n + Qnum (Qred q)) else None
  | VNum NaN | VUndefined | VStr _ | VObj _ => None
  end.

(** What a number is once [res.json] has written it and [response.json()]
    has read it back: [NaN] travels as [null]. *)
Definition over_the_wire (v : value) : value :=
  match v with
  | VNum NaN => VNull
  | _ => v
  end.

(** The body a request arrives with at the server, after [JSON.stringify]
    and the server's JSON parser. *)
Definition body_of (r : Request) : gmap string value :=
  match r with
  | FlameUpdate count action => {[ "count" := of_Z count; "action" := VStr action ]}
  | RenderMetrics duration count =>
      {[ "duration" := VNum (Num duration); "flameCount" := of_Z count ]}
  | GenerateLogs count => {[ "flameCount" := of_Z count ]}
  end.

(** The request as the server's event. *)
Definition post (r : Request) : Event :=
  match r with
  | FlameUpdate _ _ => PostFlames (body_of r)
  | RenderMetrics _ _ => PostRender (body_of r)
  | GenerateLogs _ => PostLogs (body_of r)
  end.

Section Loop.
Context (w : World).

(** [Flame.update()] with [k] draws made so far. *)
Definition update (f : Flame) (k : nat) : Flame * nat :=
  let ps := forEach (length (particles f)) 0 (particles f) in
  if (length ps <? 20)%nat
  then ({| baseX := baseX f; baseY := baseY f;
           particles := ps ++ createParticles w 20 (baseX f) (baseY f) k |},
        (k + 80)%nat)
  else ({| baseX := baseX f; baseY := baseY f; particles := ps |}, k).

(** [flames.forEach(flame => { flame.update(); flame.draw(ctx); })], the
    drawing left out. *)
Fixpoint update_all (fs : list Flame) (k : nat) : list Flame * nat :=
  match fs with
  | [] => ([], k)
  | f :: fs' =>
      let '(f', k') := update f k in
      let '(fs'', k'') := update_all fs' k' in
      (f' :: fs'', k'')
  end.

(** [n] calls of [update()] on one flame. *)
Fixpoint updates (n : nat) (f : Flame) (k : nat) : Flame * nat :=
  match n with
  | O => (f, k)
  | S n' => let '(f', k') := update f k in updates n' f' k'
  end.

(** [animate()], called at clock reading [now], its drawing having taken
    [renderDuration] milliseconds. *)
Definition animate (now : Z) (renderDuration : Q) (p : State) : State :=
  let elapsed := now - lastFrameTime p in
  let frameCount' := frameCount p + 1 in
  let fps' := if rem_is_zero frameCount' 30 then fps_of elapsed else fps p in
  let shown' := if rem_is_zero frameCount' 30 then fps_of elapsed else shownFps p in
  let '(fs, k) := update_all (flames (driver p)) (draws (driver p)) in
  let d1 := with_flames fs k (driver p) in
  let d2 := if rem_is_zero frameCount' 60 then sendRenderMetrics renderDuration d1 else d1 in
  let d3 := if rem_is_zero frameCount' (120 - Z.min (flameCount d2 * 2) 100)
            then generateLogs d2 else d2 in
  {| driver := d3; frameCount := frameCount'; lastFrameTime := now;
     fps := fps'; shownFps := shown' |}.

(** The continuation of [sendFlameUpdate]. *)
Definition flameUpdate_done (ok : bool) (d : Driver) : Driver :=
  if ok then updateStats (add_traces 1 d) else d.

(** The continuation of [sendRenderMetrics]: it counts with the load of the
    moment the response arrives. *)
Definition renderMetrics_done (ok : bool) (d : Driver) : Driver :=
  if ok then updateStats (add_logs (Qceiling (inject_Z (flameCount d) / inject_Z 5)) d)
  else d.

(** The continuation of [generateLogs], [reply] being the [logsGenerated]
    of the parsed response: [logsGenerated += data.logsGenerated || 0]. *)
Definition generateLogs_done (ok : bool) (reply : value) (d : Driver) : option Driver :=
  if ok
  then n ← counter_plus (logsGenerated d) (if JS.truthy reply then reply else of_Z 0) ;
       Some (updateStats (set_logs n d))
  else Some d.

Definition on_driver (f : Driver -> Driver) (p : State) : State :=
  {| driver := f (driver p); frameCount := frameCount p;
     lastFrameTime := lastFrameTime p; fps := fps p; shownFps := shownFps p |}.

Definition handle (e : Input) (p : State) : State :=
  match e with
  | User u => on_driver (Client.handle w u) p
  | Frame now renderDuration => animate now renderDuration p
  | InitialTimeout => on_driver (sendFlameUpdate "initial") p
  | FlameUpdateDone ok => on_driver (flameUpdate_done ok) p
  | RenderMetricsDone ok => on_driver (renderMetrics_done ok) p
  end.

(** The page once the script has run up to its first [initFlames()]:
    [lastFrameTime] read at [now], ten flames laid out, no frame yet.  The
    script's own first call of [animate()] is the first [Frame] input; the
    [updateStats()] that follows it shows the two counters, which that frame
    leaves alone, so it is made here.  The fps text is taken to show the
    initial 60. *)
Definition start (innerWidth innerHeight : Q) (now : Z) : State :=
  {| driver := Client.start w innerWidth innerHeight;
     frameCount := 0; lastFrameTime := now; fps := Some 60; shownFps := Some 60 |}.

Definition play (evs : list Input) (p : State) : State :=
  foldl (fun p e => handle e p) p evs.

End Loop.

(** The elements at the odd positions (the second, the fourth, ...). *)
Fixpoint odds {A : Type} (l : list A) : list A :=
  match l with
  | _ :: y :: l' => y :: odds l'
  | _ => []
  end.

(** The count of the last load-change request in a list of requests. *)
Fixpoint last_flame_count (l : list Request) : option Z :=
  match l with
  | [] => None
  | r :: l' =>
      match last_flame_count l' with
      | Some c => Some c
      | None => match r with FlameUpdate c _ => Some c | _ => None end
      end
  end.

(** The [logsGenerated] (or any other field) of a parsed response. *)
Definition reply_field (r : Response) (k : string) : value :=
  over_the_wire (field (list_to_map (payload r)) k).

(** How many of the requests satisfy [f]. *)
Definition count (f : Request -> bool) (l : list Request) : Z :=
  Z.of_nat (length (List.filter f l)).

Definition is_render (r : Request) : bool :=
  match r with RenderMetrics _ _ => true | _ => false end.

Definition is_logs (r : Request) : bool :=
  match r with GenerateLogs _ => true | _ => false end.

Definition is_flame_update (r : Request) : bool :=
  match r with FlameUpdate _ _ => true | _ => false end.

(** A particle the canvas can paint: its alpha within (0, 1], its radius
    within (0, 10]. *)
Definition paintable (p : Particle) : Prop :=
  (0 < p_life p)%Q /\ (p_life p <= 1)%Q /\ (0 < p_size p)%Q /\ (p_size p <= 10)%Q.

(** Twenty particles, all [n] frames old. *)
Definition aged (n : nat) (f : Flame) : Prop :=
  length (particles f) = 20%nat
  /\ Forall (fun p => (p_life p == 1 - inject_Z (Z.of_nat n) * (1 # 100))%Q) (particles f).

(** Every flame holds from 20 to 39 particles, and there is one flame per
    unit of load. *)
Definition tidy (d : Driver) : Prop :=
  Forall (fun f => (20 <= length (particles f) <= 39)%nat) (flames d)
  /\ length (flames d) = Z.to_nat (flameCount d).

End Page.
Example iso_epoch : Sample.to_iso_string 0 = "1970-01-01T00:00:00.000Z"%string.
Proof. vm_compute. reflexivity. Qed.

Example iso_2023 : Sample.to_iso_string 1700000000000 = "2023-11-14T22:13:20.000Z"%string.
Proof. vm_compute. reflexivity. Qed.

Example iso_leap : Sample.to_iso_string 1709251199999 = "2024-02-29T23:59:59.999Z"%string.
Proof. vm_compute. reflexivity. Qed.

Lemma wired_instruments : wired instruments.
Proof. reflexivity. Qed.

Lemma wired_lookup reg name k :
  wired reg -> (kind_of <$> instruments) !! name = Some k ->
  exists i, reg !! name = Some i /\ kind_of i = k.
Proof.
  intros Hw Hk. rewrite <- Hw, lookup_fmap in Hk.
  destruct (reg !! name) as [i|]; simpl in Hk; [|discriminate].
  exists i. split; [reflexivity|congruence].
Qed.

Lemma wired_gauge reg name :
  wired reg -> (kind_of <$> instruments) !! name = Some KGauge ->
  exists vals, reg !! name = Some (IGauge vals).
Proof.
  intros Hw Hk. destruct (wired_lookup _ _ _ Hw Hk) as ([vals|vals|h] & Hi & Hkind);
    try discriminate. eauto.
Qed.

Lemma wired_counter reg name :
  wired reg -> (kind_of <$> instruments) !! name = Some KCounter ->
  exists vals, reg !! name = Some (ICounter vals).
Proof.
  intros Hw Hk. destruct (wired_lookup _ _ _ Hw Hk) as ([vals|vals|h] & Hi & Hkind);
    try discriminate. eauto.
Qed.

Lemma wired_histogram reg name bs :
  wired reg -> (kind_of <$> instruments) !! name = Some (KHistogram bs) ->
  exists h, reg !! name = Some (IHistogram h) /\ h_bounds h = bs.
Proof.
  intros Hw Hk. destruct (wired_lookup _ _ _ Hw Hk) as ([vals|vals|h] & Hi & Hkind);
    try discriminate. exists h. split; [done|]. simpl in Hkind. congruence.
Qed.

Lemma wired_insert reg name i i' :
  wired reg -> reg !! name = Some i -> kind_of i' = kind_of i ->
  wired (<[name := i']> reg).
Proof.
  unfold wired. intros Hw Hi Hk. rewrite fmap_insert, Hk, <- Hw.
  apply insert_id. rewrite lookup_fmap, Hi. reflexivity.
Qed.

Lemma setGauge_wired name labels v reg reg' :
  wired reg -> Emitter.setGauge name labels v reg = inr reg' -> wired reg'.
Proof.
  unfold Emitter.setGauge. intros Hw.
  destruct (reg !! name) as [[vals|vals|h]|] eqn:Hi; try discriminate.
  destruct v; try discriminate. intros [= <-].
  eapply wired_insert; eauto.
Qed.

Lemma incrementCounter_wired name labels v reg reg' :
  wired reg -> Emitter.incrementCounter name labels v reg = inr reg' -> wired reg'.
Proof.
  unfold Emitter.incrementCounter. intros Hw.
  destruct (reg !! name) as [[vals|vals|h]|] eqn:Hi; try discriminate.
  destruct (Emitter.amount_of v); try discriminate. intros [= <-].
  eapply wired_insert; eauto.
Qed.

Lemma observeHistogram_wired name v reg reg' :
  wired reg -> Emitter.observeHistogram name v reg = inr reg' -> wired reg'.
Proof.
  unfold Emitter.observeHistogram. intros Hw.
  destruct (reg !! name) as [[vals|vals|h]|] eqn:Hi; try discriminate.
  destruct v as [| | |[|q]| |]; try discriminate. intros [= <-].
  eapply wired_insert; eauto.
Qed.

(** ** The emitter's operations on a wired registry *)

Section EmitterFacts.
Implicit Types (reg : gmap string Instrument) (name : string) (labels : Labels).

Lemma put_gauge_wired name labels n reg : wired reg -> wired (put_gauge name labels n reg).
Proof.
  intros Hw. unfold put_gauge.
  destruct (reg !! name) as [[vals|vals|h]|] eqn:Hi; try done.
  eapply wired_insert; eauto.
Qed.

Lemma add_counter_wired name labels a reg : wired reg -> wired (add_counter name labels a reg).
Proof.
  intros Hw. unfold add_counter.
  destruct (reg !! name) as [[vals|vals|h]|] eqn:Hi; try done.
  eapply wired_insert; eauto.
Qed.

Lemma add_observation_wired name q reg : wired reg -> wired (add_observation name q reg).
Proof.
  intros Hw. unfold add_observation.
  destruct (reg !! name) as [[vals|vals|h]|] eqn:Hi; try done.
  eapply wired_insert; eauto.
Qed.

Lemma setGauge_number name labels n reg :
  wired reg -> (kind_of <$> instruments) !! name = Some KGauge ->
  Emitter.setGauge name labels (VNum n) reg = inr (put_gauge name labels n reg).
Proof.
  intros Hw Hk. destruct (wired_gauge _ _ Hw Hk) as [vals Hi].
  unfold Emitter.setGauge, put_gauge. rewrite Hi. reflexivity.
Qed.

Lemma incrementCounter_amount name labels v a reg :
  wired reg -> (kind_of <$> instruments) !! name = Some KCounter ->
  Emitter.amount_of v = inr a ->
  Emitter.incrementCounter name labels v reg = inr (add_counter name labels a reg).
Proof.
  intros Hw Hk Ha. destruct (wired_counter _ _ Hw Hk) as [vals Hi].
  unfold Emitter.incrementCounter, add_counter. rewrite Hi, Ha. reflexivity.
Qed.

Lemma observeHistogram_number name q bs reg :
  wired reg -> (kind_of <$> instruments) !! name = Some (KHistogram bs) ->
  Emitter.observeHistogram name (VNum (Num q)) reg = inr (add_observation name q reg).
Proof.
  intros Hw Hk. destruct (wired_histogram _ _ _ Hw Hk) as (h & Hi & _).
  unfold Emitter.observeHistogram, add_observation. rewrite Hi. reflexivity.
Qed.

(** Reading back what was written. *)
Lemma gauge_at_put name labels n reg :
  wired reg -> (kind_of <$> instruments) !! name = Some KGauge ->
  gauge_at (put_gauge name labels n reg) name labels = Some n.
Proof.
  intros Hw Hk. destruct (wired_gauge _ _ Hw Hk) as [vals Hi].
  unfold gauge_at, put_gauge. rewrite Hi, lookup_insert_eq. apply lookup_insert_eq.
Qed.

Lemma counter_at_add name labels a reg :
  wired reg -> (kind_of <$> instruments) !! name = Some KCounter ->
  counter_at (add_counter name labels a reg) name labels
  = (counter_at reg name labels + a)%Q.
Proof.
  intros Hw Hk. destruct (wired_counter _ _ Hw Hk) as [vals Hi].
  unfold counter_at, add_counter. rewrite Hi, lookup_insert_eq, lookup_insert_eq.
  reflexivity.
Qed.

Lemma observed_at_add name q bs reg :
  wired reg -> (kind_of <$> instruments) !! name = Some (KHistogram bs) ->
  observed_at (add_observation name q reg) name = q :: observed_at reg name
  /\ bounds_at (add_observation name q reg) name = bs.
Proof.
  intros Hw Hk. destruct (wired_histogram _ _ _ Hw Hk) as (h & Hi & Hb).
  unfold observed_at, bounds_at, add_observation.
  rewrite Hi, lookup_insert_eq. simpl. auto.
Qed.

(** A write leaves every other name alone. *)
Lemma lookup_put_gauge_ne name name' labels n reg :
  name <> name' -> put_gauge name labels n reg !! name' = reg !! name'.
Proof.
  intros Hne. unfold put_gauge.
  destruct (reg !! name) as [[vals|vals|h]|]; try done. by rewrite lookup_insert_ne.
Qed.

Lemma lookup_add_counter_ne name name' labels a reg :
  name <> name' -> add_counter name labels a reg !! name' = reg !! name'.
Proof.
  intros Hne. unfold add_counter.
  destruct (reg !! name) as [[vals|vals|h]|]; try done. by rewrite lookup_insert_ne.
Qed.

Lemma lookup_add_observation_ne name name' q reg :
  name <> name' -> add_observation name q reg !! name' = reg !! name'.
Proof.
  intros Hne. unfold add_observation.
  destruct (reg !! name) as [[vals|vals|h]|]; try done. by rewrite lookup_insert_ne.
Qed.

(** A gauge write leaves the other label sets of the same gauge alone. *)
Lemma gauge_at_put_labels name labels labels' n reg :
  labels <> labels' ->
  gauge_at (put_gauge name labels n reg) name labels' = gauge_at reg name labels'.
Proof.
  intros Hne. unfold gauge_at, put_gauge.
  destruct (reg !! name) as [[vals|vals|h]|] eqn:Hi; rewrite ?Hi; try done.
  rewrite lookup_insert_eq. by rewrite lookup_insert_ne.
Qed.

(** A counter increment or an observation never changes what a gauge reads. *)
Lemma gauge_at_add_counter name name' labels labels' a reg :
  gauge_at (add_counter name labels a reg) name' labels' = gauge_at reg name' labels'.
Proof.
  unfold gauge_at, add_counter.
  destruct (reg !! name) as [[vals|vals|h]|] eqn:Hi; try done.
  destruct (decide (name = name')) as [->|Hne].
  - by rewrite lookup_insert_eq, Hi.
  - by rewrite lookup_insert_ne.
Qed.

Lemma gauge_at_add_observation name name' labels' q reg :
  gauge_at (add_observation name q reg) name' labels' = gauge_at reg name' labels'.
Proof.
  unfold gauge_at, add_observation.
  destruct (reg !! name) as [[vals|vals|h]|] eqn:Hi; try done.
  destruct (decide (name = name')) as [->|Hne].
  - by rewrite lookup_insert_eq, Hi.
  - by rewrite lookup_insert_ne.
Qed.

End EmitterFacts.

(** ** What one run of each handler does *)

Section Handlers.
Context {rt : Runtime} (w : World).

Lemma instrument_ok op r s :
  op (registry s) = inr r -> instrument op s = (Returned tt, with_registry r s).
Proof. unfold instrument. intros ->. reflexivity. Qed.

Lemma amount_of_number q :
  (0 <= q)%Q -> Emitter.amount_of (VNum (Num q)) = inr q.
Proof.
  intros Hq. unfold Emitter.amount_of.
  destruct (Qle_bool 0 q) eqn:E; [reflexivity|].
  apply Qle_bool_iff in Hq. congruence.
Qed.

(** [/api/flames] with a numeric [count] that keeps the sparks delta at or
    above zero: the whole final state. *)
Lemma api_flames_number s body c :
  wired (registry s) ->
  field body "count" = VNum (Num c) ->
  let action := field body "action" in
  let u := random w (rand_calls s) in
  let u' := random w (S (rand_calls s)) in
  let r1 := put_gauge "embers_flame_count" [] (Num c) (registry s) in
  let r2 := if JS.truthy action
            then add_counter "embers_button_clicks_total"
                   [("button_type", JS.ToString action)] 1 r1
            else r1 in
  let r3 := put_gauge "embers_temperature_celsius" [] (Num (800 + u * 400)) r2 in
  (0 <= inject_Z (Qfloor (u' * 10)) + c)%Q ->
  api_flames w body s =
    (Returned {| status := 200;
                 payload := [("success", VBool true); ("count", VNum (Num c))] |},
     {| registry := add_counter "embers_sparks_emitted_total" []
                      (inject_Z (Qfloor (u' * 10)) + c) r3;
        console := console s ++
          [{| level := VStr "info"; message := VStr "Flame count updated";
              fields := [("flame_count", VNum (Num c)); ("action", action);
                         ("timestamp", VStr (toISOString (clock w (clock_reads s))));
                         ("user_action", VBool true)] |}];
        rand_calls := S (S (rand_calls s));
        clock_reads := S (clock_reads s);
        startTime := startTime s |}).
Proof.
  intros Hw Hc action u u' r1 r2 r3 Hpos.
  assert (Hw1 : wired r1) by (by apply put_gauge_wired).
  assert (Hw2 : wired r2).
  { subst r2. destruct (JS.truthy action); [by apply add_counter_wired|done]. }
  assert (Hw3 : wired r3) by (by apply put_gauge_wired).
  unfold api_flames. rewrite Hc. fold action.
  unfold mbind, M_bind.
  rewrite (instrument_ok _ r1) by (by apply setGauge_number).
  assert (Hclick :
    (if JS.truthy action
     then instrument (Emitter.incrementCounter "embers_button_clicks_total"
                        [("button_type", JS.ToString action)] VUndefined)
     else mret tt) (with_registry r1 s) = (Returned tt, with_registry r2 (with_registry r1 s))).
  { subst r2. destruct (JS.truthy action).
    - apply instrument_ok. by apply incrementCounter_amount.
    - destruct s; reflexivity. }
  rewrite Hclick. simpl.
  rewrite (instrument_ok _ r3) by (by apply setGauge_number).
  simpl.
  rewrite (instrument_ok _ (add_counter "embers_sparks_emitted_total" []
                              (inject_Z (Qfloor (u' * 10)) + c) r3)).
  - reflexivity.
  - simpl. apply incrementCounter_amount; [done|done|]. by apply amount_of_number.
Qed.

End Handlers.

Section Loops.
Context {rt : Runtime} (w : World).

Lemma after_rounds_0 record dk dc s : after_rounds record dk dc 0 s = s.
Proof.
  unfold after_rounds. destruct s; simpl.
  rewrite app_nil_r, !Nat.mul_0_r, !Nat.add_0_r. reflexivity.
Qed.

Lemma after_rounds_S record dk dc n s :
  after_rounds (fun j => record (S j)) dk dc n
    {| registry := registry s; console := console s ++ [record O];
       rand_calls := rand_calls s + dk; clock_reads := clock_reads s + dc;
       startTime := startTime s |}
  = after_rounds record dk dc (S n) s.
Proof.
  unfold after_rounds. simpl. f_equal.
  - rewrite <- app_assoc. simpl. f_equal. f_equal.
    rewrite <- fmap_S_seq, <- list_fmap_compose. reflexivity.
  - lia.
  - lia.
Qed.

(** The loop of [/api/logs]: [n] rounds never throw and write [n] records. *)
Lemma logs_rounds fc (n : nat) : forall (i : Z) (s : Server),
  for_from i n (fun _ : Z =>
      u ← Math_random w ;
      let lvl := JS.index logTypes (Qfloor (u * inject_Z (Z.of_nat (length logTypes)))) in
      u' ← Math_random w ;
      let msg := JS.index messages (Qfloor (u' * inject_Z (Z.of_nat (length messages)))) in
      u'' ← Math_random w ;
      t ← Date_now w ;
      logger_log lvl msg
        [("flame_count", fc); ("random_value", VNum (Num (u'' * 100)));
         ("timestamp", VStr (toISOString t))]) s
  = (Returned tt,
     after_rounds
       (fun j => logs_record w fc (rand_calls s + 3 * j) (clock_reads s + j)) 3 1 n s).
Proof.
  induction n as [|n IH]; intros i s.
  - simpl. rewrite after_rounds_0. reflexivity.
  - rewrite <- after_rounds_S. simpl for_from.
    unfold mbind at 1. unfold M_bind at 1.
    unfold mbind at 1 2 3 4, M_bind at 1 2 3 4. simpl.
    rewrite IH. simpl. f_equal.
    unfold after_rounds. simpl. f_equal; try lia.
    + f_equal.
      * unfold logs_record. simpl.
        replace (rand_calls s + 0)%nat with (rand_calls s) by lia.
        replace (clock_reads s + 0)%nat with (clock_reads s) by lia.
        replace (rand_calls s + 1)%nat with (S (rand_calls s)) by lia.
        replace (rand_calls s + 2)%nat with (S (S (rand_calls s))) by lia.
        reflexivity.
      * apply list_fmap_ext. intros _ j _.
        f_equal; lia.
Qed.

End Loops.

Section Arithmetic.

(** [Math.ceil(L / k)] is the least integer [n] with [L <= k * n]. *)
Lemma ceil_div_spec (L : Z) (k : positive) :
  let n := Qceiling (inject_Z L / inject_Z (Zpos k)) in
  Zpos k * (n - 1) < L <= Zpos k * n.
Proof.
  assert (E : Qceiling (inject_Z L / inject_Z (Zpos k)) = - (- L / Zpos k)).
  { unfold Qceiling, Qfloor, Qdiv, Qmult, Qinv, Qopp, inject_Z.
    cbn -[Z.mul Z.div Z.opp]. rewrite Z.mul_1_r. reflexivity. }
  cbv zeta. rewrite E.
  pose proof (Z.div_mod (- L) (Zpos k) ltac:(lia)) as Hdm.
  pose proof (Z.mod_pos_bound (- L) (Zpos k) ltac:(lia)) as Hb.
  lia.
Qed.

Lemma ceil_div_nonneg (L : Z) (k : positive) :
  0 <= L -> 0 <= Qceiling (inject_Z L / inject_Z (Zpos k)).
Proof. intros HL. pose proof (ceil_div_spec L k) as Hs. simpl in Hs. nia. Qed.

(** The loop runs for exactly the indices that pass its test [i < bound]. *)
Lemma trip_count_test (bound : number) (i : nat) :
  JS.lt (Num (inject_Z (Z.of_nat i))) bound = true <-> (i < JS.trip_count bound)%nat.
Proof.
  destruct bound as [|q]; simpl; [split; [discriminate|lia]|].
  rewrite negb_true_iff, <- not_true_iff_false, Qle_bool_iff.
  pose proof (Qle_ceiling q) as Hc. pose proof (Qceiling_lt q) as Hl.
  split.
  - intros Hlt. apply Qnot_le_lt in Hlt.
    assert (Hz : (inject_Z (Z.of_nat i) < inject_Z (Qceiling q))%Q)
      by (eapply Qlt_le_trans; eauto).
    rewrite <- Zlt_Qlt in Hz. lia.
  - intros Hi. apply Qlt_not_le.
    eapply Qle_lt_trans; [|exact Hl].
    rewrite <- Zle_Qle. lia.
Qed.

(** A draw in [[0, 1)] scaled by [n] has its floor among [0 .. n - 1], and
    falls in the cell of that index. *)
Lemma floor_scaled (u : Q) (n : positive) :
  (0 <= u)%Q -> (u < 1)%Q ->
  let a := Qfloor (u * inject_Z (Zpos n)) in
  0 <= a < Zpos n
  /\ (inject_Z a <= u * inject_Z (Zpos n))%Q
  /\ (u * inject_Z (Zpos n) < inject_Z a + 1)%Q.
Proof.
  intros H0 H1 a.
  pose proof (Qfloor_le (u * inject_Z (Zpos n))) as Hf.
  pose proof (Qlt_floor (u * inject_Z (Zpos n))) as Hl.
  fold a in Hf, Hl.
  assert (Hn : (0 < inject_Z (Zpos n))%Q) by (rewrite <- (Zlt_Qlt 0); lia).
  assert (Hlo : (0 <= u * inject_Z (Zpos n))%Q) by (apply Qmult_le_0_compat; [done|by apply Qlt_le_weak]).
  assert (Hhi : (u * inject_Z (Zpos n) < inject_Z (Zpos n))%Q).
  { rewrite <- (Qmult_1_l (inject_Z (Zpos n))) at 2. by apply Qmult_lt_compat_r. }
  split; [split|split].
  - assert (Ha : (inject_Z (-1) < inject_Z a)%Q).
    { rewrite inject_Z_plus in Hl. change (inject_Z 1) with 1%Q in Hl.
      change (inject_Z (-1)) with (-1)%Q.
      set (x := (u * inject_Z (Zpos n))%Q) in *. clearbody x.
      set (y := inject_Z a) in *. clearbody y. lra. }
    rewrite <- Zlt_Qlt in Ha. lia.
  - assert (Ha : (inject_Z a < inject_Z (Zpos n))%Q) by (eapply Qle_lt_trans; eauto).
    rewrite <- Zlt_Qlt in Ha. lia.
  - exact Hf.
  - rewrite inject_Z_plus in Hl. exact Hl.
Qed.

End Arithmetic.

Section ForLoop.
Context {rt : Runtime} (w : World).

Lemma for_test_from (bound : number) (body : Z -> M unit) (n : nat) : forall i : nat,
  (forall j : nat, (i <= j < i + n)%nat ->
     JS.lt (Num (inject_Z (Z.of_nat j))) bound = true) ->
  for_test n (Z.of_nat i) bound body = for_from (Z.of_nat i) n body.
Proof.
  induction n as [|n IH]; intros i Htest; [reflexivity|].
  cbn [for_test for_from]. rewrite (Htest i) by lia.
  replace (Z.of_nat i + 1) with (Z.of_nat (S i)) by lia.
  rewrite IH; [reflexivity|]. intros j Hj. apply Htest. lia.
Qed.

(** The loop is its [trip_count] rounds, one after the other. *)
Lemma for_loop_unroll (bound : number) (body : Z -> M unit) :
  for_loop bound body = for_from 0 (JS.trip_count bound) body.
Proof.
  unfold for_loop. apply (for_test_from bound body (JS.trip_count bound) 0).
  intros j Hj. apply trip_count_test. lia.
Qed.

(** After those rounds it is the test that stops the loop, not the fuel. *)
Lemma for_loop_exits (bound : number) :
  JS.lt (Num (inject_Z (Z.of_nat (JS.trip_count bound)))) bound = false.
Proof.
  apply not_true_iff_false. rewrite trip_count_test. lia.
Qed.

End ForLoop.

Section PeriodicLogs.
Context {rt : Runtime} (w : World).

Lemma index_in_range (arr : list string) (a : Z) :
  0 <= a < Z.of_nat (length arr) ->
  exists x, arr !! Z.to_nat a = Some x /\ JS.index arr a = VStr x.
Proof.
  intros Ha. destruct (lookup_lt_is_Some_2 arr (Z.to_nat a)) as [x Hx]; [lia|].
  exists x. split; [done|]. unfold JS.index.
  destruct (Z.ltb_spec a 0); [lia|]. rewrite Hx. reflexivity.
Qed.

(** [/api/logs] on any body whatever: it never throws, answers 200 with the
    loop bound it computed, and leaves the state of [trip_count] rounds. *)
Lemma api_logs_run (s : Server) (body : gmap string value) :
  let flameCount := field body "flameCount" in
  let numLogs := JS.ceil (JS.div_lit (JS.ToNumber flameCount) 3) in
  api_logs w body s =
    (Returned {| status := 200;
                 payload := [("success", VBool true); ("logsGenerated", VNum numLogs)] |},
     after_rounds
       (fun j => logs_record w flameCount (rand_calls s + 3 * j) (clock_reads s + j))
       3 1 (JS.trip_count numLogs) s).
Proof.
  intros flameCount numLogs. unfold api_logs. rewrite for_loop_unroll.
  fold flameCount. fold numLogs.
  unfold mbind at 1. unfold M_bind at 1.
  rewrite logs_rounds. reflexivity.
Qed.

End PeriodicLogs.

(** C1.  For every load level [L >= 0] received on [POST /api/logs], the
    handler emits exactly [ceil(L/3)] log records (the integer [n] with
    [3(n-1) < L <= 3n]), touches no instrument, and answers
    [{success: true, logsGenerated: n}] with [n] the number of records emitted.
    Record [j] takes three draws of its own: the first picks the level, the
    one of [info], [warn], [error] whose third of [[0, 1)] it falls in; the
    second picks the message, the one of the eight whose eighth it falls in;
    the third, times 100, is [random_value]. *)
Theorem periodic_logs_emit_ceil {rt : Runtime} (w : World) (s : Server)
    (body : gmap string value) (L : Z) :
  0 <= L -> unit_draws w -> field body "flameCount" = of_Z L ->
  exists (n : Z) (recs : list LogRecord) (s' : Server),
    3 * (n - 1) < L <= 3 * n
    /\ api_logs w body s =
         (Returned {| status := 200;
                      payload := [("success", VBool true); ("logsGenerated", of_Z n)] |},
          s')
    /\ registry s' = registry s
    /\ console s' = console s ++ recs
    /\ Z.of_nat (length recs) = n
    /\ forall (j : nat) (r : LogRecord), recs !! j = Some r ->
         let u := random w (rand_calls s + 3 * j) in
         let u' := random w (rand_calls s + 3 * j + 1) in
         let u'' := random w (rand_calls s + 3 * j + 2) in
         exists (a b : nat) (lv msg : string),
           logTypes !! a = Some lv /\ level r = VStr lv
           /\ (inject_Z (Z.of_nat a) <= u * 3)%Q /\ (u * 3 < inject_Z (Z.of_nat a) + 1)%Q
           /\ messages !! b = Some msg /\ message r = VStr msg
           /\ (inject_Z (Z.of_nat b) <= u' * 8)%Q /\ (u' * 8 < inject_Z (Z.of_nat b) + 1)%Q
           /\ fields r = [("flame_count", of_Z L);
                          ("random_value", VNum (Num (u'' * 100)));
                          ("timestamp", VStr (toISOString (clock w (clock_reads s + j))))]
           /\ (0 <= u'' * 100)%Q /\ (u'' * 100 < 100)%Q.
Proof.
  intros HL Hu Hfc.
  set (n := Qceiling (inject_Z L / inject_Z 3)).
  pose proof (ceil_div_spec L 3) as Hn. cbv zeta in Hn. fold n in Hn.
  pose proof (api_logs_run w s body) as Hrun. cbv zeta in Hrun.
  rewrite Hfc in Hrun. simpl JS.ToNumber in Hrun.
  change (JS.div_lit (Num (inject_Z L)) 3) with (Num (inject_Z L / inject_Z 3)) in Hrun.
  simpl JS.ceil in Hrun. fold n in Hrun.
  simpl JS.trip_count in Hrun. rewrite Qceiling_Z in Hrun.
  eexists n, _, _. split; [lia|]. split; [exact Hrun|].
  split; [reflexivity|]. split; [reflexivity|].
  split; [rewrite length_fmap, length_seq; lia|].
  intros j r Hr u u' u''.
  rewrite list_lookup_fmap in Hr.
  destruct (seq 0 (Z.to_nat n) !! j) as [j'|] eqn:Hj; [|discriminate].
  apply lookup_seq in Hj as [-> Hlt]. simpl in Hr. injection Hr as <-.
  destruct (Hu (rand_calls s + 3 * j)%nat) as [Hu0 Hu1].
  destruct (Hu (rand_calls s + 3 * j + 1)%nat) as [Hv0 Hv1].
  destruct (Hu (rand_calls s + 3 * j + 2)%nat) as [Hx0 Hx1].
  fold u in Hu0, Hu1. fold u' in Hv0, Hv1. fold u'' in Hx0, Hx1.
  destruct (floor_scaled u 3 Hu0 Hu1) as (Ha & Ha1 & Ha2).
  destruct (floor_scaled u' 8 Hv0 Hv1) as (Hb & Hb1 & Hb2).
  destruct (index_in_range logTypes (Qfloor (u * inject_Z 3)) Ha) as (lv & Hlv & Hil).
  destruct (index_in_range messages (Qfloor (u' * inject_Z 8)) Hb) as (msg & Hmsg & Him).
  exists (Z.to_nat (Qfloor (u * inject_Z 3))), (Z.to_nat (Qfloor (u' * inject_Z 8))), lv, msg.
  rewrite !Z2Nat.id by lia.
  split; [exact Hlv|]. split; [exact Hil|].
  split; [exact Ha1|]. split; [exact Ha2|].
  split; [exact Hmsg|]. split; [exact Him|].
  split; [exact Hb1|]. split; [exact Hb2|].
  split; [reflexivity|].
  split; lra.
Qed.

(** The loop bounds the spec lists: [ceil(L/3)] at 0, 1, 3, 4 and
    [ceil(L/5)] at 5, 6. *)
Example logs_rounds_listed :
  (fun L => JS.trip_count (JS.ceil (JS.div_lit (Num (inject_Z L)) 3))) <$> [0; 1; 3; 4]
  = [0; 1; 1; 2]%nat.
Proof. reflexivity. Qed.

Example render_rounds_listed :
  (fun L => JS.trip_count (JS.ceil (JS.div_lit (Num (inject_Z L)) 5))) <$> [5; 6]
  = [1; 2]%nat.
Proof. reflexivity. Qed.

(** A closed run of C1's statement: four flames, two records. *)
Lemma sample_draws : unit_draws Sample.world.
Proof.
  intros k. unfold Sample.world, Qle, Qlt. simpl.
  pose proof (Nat.mod_upper_bound (7 * k) 10 ltac:(lia)). lia.
Qed.

Lemma periodic_logs_emit_ceil_witness :
  exists (recs : list LogRecord) (s' : Server),
    api_logs (rt := Sample.runtime) Sample.world {[ "flameCount" := of_Z 4 ]} Sample.server =
      (Returned {| status := 200;
                   payload := [("success", VBool true); ("logsGenerated", of_Z 2)] |}, s')
    /\ console s' = console Sample.server ++ recs
    /\ length recs = 2%nat.
Proof.
  destruct (periodic_logs_emit_ceil (rt := Sample.runtime) Sample.world Sample.server
              {[ "flameCount" := of_Z 4 ]} 4)
    as (n & recs & s' & Hn & Hrun & _ & Hcon & Hlen & _).
  - lia.
  - exact sample_draws.
  - reflexivity.
  - assert (n = 2) as -> by lia.
    exists recs, s'. split; [exact Hrun|]. split; [exact Hcon|]. lia.
Defined.

Section RenderSample.
Context {rt : Runtime} (w : World).

Lemma floor_div (a : Z) (k : positive) :
  Qfloor (inject_Z a / inject_Z (Zpos k)) = a / Zpos k.
Proof.
  unfold Qfloor, Qdiv, Qmult, Qinv, inject_Z.
  cbn -[Z.mul Z.div]. rewrite Z.mul_1_r. reflexivity.
Qed.

(** The loop of [/api/render], from index [i]. *)
Lemma render_rounds duration fc (n : nat) : forall (i : Z) (s : Server),
  for_from i n (fun i : Z =>
      u ← Math_random w ;
      let lvl := if JS.lt (Num (4 # 5)) (Num u) then "warn" else "info" in
      t ← Date_now w ;
      t' ← Date_now w ;
      logger_log (VStr lvl) (VStr "Flame rendered")
        [("flame_index", of_Z i); ("duration_ms", duration);
         ("total_flames", fc); ("timestamp", VStr (toISOString t));
         ("render_cycle", VNum (JS.floor (JS.div_lit (Num (inject_Z t')) 1000)))]) s
  = (Returned tt,
     after_rounds
       (fun j => render_record w duration fc (i + Z.of_nat j)
                   (rand_calls s + j) (clock_reads s + 2 * j)) 1 2 n s).
Proof.
  induction n as [|n IH]; intros i s.
  - simpl. rewrite after_rounds_0. reflexivity.
  - rewrite <- after_rounds_S. simpl for_from.
    unfold mbind at 1. unfold M_bind at 1.
    unfold mbind at 1 2 3, M_bind at 1 2 3. simpl.
    rewrite IH. simpl. f_equal.
    unfold after_rounds. simpl. f_equal; try lia.
    f_equal.
    + unfold render_record. simpl.
      replace (rand_calls s + 0)%nat with (rand_calls s) by lia.
      replace (clock_reads s + 0)%nat with (clock_reads s) by lia.
      replace (clock_reads s + 1)%nat with (S (clock_reads s)) by lia.
      replace (i + Z.of_nat 0) with i by lia.
      reflexivity.
    + apply list_fmap_ext. intros _ j _.
      f_equal; lia.
Qed.

(** [/api/render] with a numeric duration, whatever [flameCount] is. *)
Lemma api_render_run (s : Server) (body : gmap string value) (d : Q) :
  wired (registry s) -> field body "duration" = VNum (Num d) ->
  let flameCount := field body "flameCount" in
  let logCount := JS.ceil (JS.div_lit (JS.ToNumber flameCount) 5) in
  api_render w body s =
    (Returned {| status := 200; payload := [("success", VBool true)] |},
     after_rounds
       (fun j => render_record w (VNum (Num d)) flameCount (Z.of_nat j)
                   (rand_calls s + j) (clock_reads s + 2 * j))
       1 2 (JS.trip_count logCount)
       (with_registry (add_observation "embers_render_duration_ms" d (registry s)) s)).
Proof.
  intros Hw Hd flameCount logCount. unfold api_render. rewrite for_loop_unroll.
  rewrite Hd. fold flameCount. fold logCount.
  unfold mbind at 1. unfold M_bind at 1.
  erewrite instrument_ok by (by eapply observeHistogram_number).
  unfold mbind at 1. unfold M_bind at 1.
  rewrite render_rounds. reflexivity.
Qed.

End RenderSample.

(** C2.  For every render-sample request with duration [D] and load level
    [L >= 0], the handler records exactly one observation of [D] in the
    histogram whose bucket boundaries are 1, 5, 10, 25, 50, 100, 250, 500,
    touches no other instrument, and emits exactly [ceil(L/5)] log records.
    Record [j] is levelled by a draw of its own, [warn] when the draw is above
    0.8 (a fifth of [[0, 1)]) and [info] otherwise, and carries the index [j],
    [D], [L] and the whole epoch seconds of a clock reading. *)
Theorem render_sample_emit_ceil {rt : Runtime} (w : World) (s : Server)
    (body : gmap string value) (D : Q) (L : Z) :
  0 <= L -> unit_draws w -> wired (registry s) ->
  field body "duration" = VNum (Num D) -> field body "flameCount" = of_Z L ->
  exists (n : Z) (recs : list LogRecord) (s' : Server),
    5 * (n - 1) < L <= 5 * n
    /\ api_render w body s =
         (Returned {| status := 200; payload := [("success", VBool true)] |}, s')
    /\ observed_at (registry s') "embers_render_duration_ms"
       = D :: observed_at (registry s) "embers_render_duration_ms"
    /\ bounds_at (registry s') "embers_render_duration_ms"
       = [1; 5; 10; 25; 50; 100; 250; 500]%Q
    /\ (forall name, name <> "embers_render_duration_ms"%string ->
          registry s' !! name = registry s !! name)
    /\ console s' = console s ++ recs
    /\ Z.of_nat (length recs) = n
    /\ forall (j : nat) (r : LogRecord), recs !! j = Some r ->
         let u := random w (rand_calls s + j) in
         let t := clock w (clock_reads s + 2 * j) in
         let t' := clock w (clock_reads s + 2 * j + 1) in
         (((4 # 5) < u)%Q /\ (u < 1)%Q /\ level r = VStr "warn"
          \/ (0 <= u)%Q /\ (u <= 4 # 5)%Q /\ level r = VStr "info")
         /\ message r = VStr "Flame rendered"
         /\ exists sec : Z,
              1000 * sec <= t' < 1000 * (sec + 1)
              /\ fields r = [("flame_index", of_Z (Z.of_nat j));
                             ("duration_ms", VNum (Num D));
                             ("total_flames", of_Z L);
                             ("timestamp", VStr (toISOString t));
                             ("render_cycle", of_Z sec)].
Proof.
  intros HL Hu Hw Hd Hfc.
  set (n := Qceiling (inject_Z L / inject_Z 5)).
  pose proof (ceil_div_spec L 5) as Hn. cbv zeta in Hn. fold n in Hn.
  pose proof (api_render_run w s body D Hw Hd) as Hrun. cbv zeta in Hrun.
  rewrite Hfc in Hrun. simpl JS.ToNumber in Hrun.
  change (JS.div_lit (Num (inject_Z L)) 5) with (Num (inject_Z L / inject_Z 5)) in Hrun.
  simpl JS.ceil in Hrun. fold n in Hrun.
  simpl JS.trip_count in Hrun. rewrite Qceiling_Z in Hrun.
  destruct (observed_at_add "embers_render_duration_ms" D buckets (registry s) Hw eq_refl)
    as [Hobs Hbounds].
  eexists n, _, _. split; [lia|]. split; [exact Hrun|].
  split; [exact Hobs|]. split; [exact Hbounds|].
  split; [intros name Hne; simpl; by apply lookup_add_observation_ne|].
  split; [reflexivity|].
  split; [rewrite length_fmap, length_seq; lia|].
  intros j r Hr u t t'.
  rewrite list_lookup_fmap in Hr.
  destruct (seq 0 (Z.to_nat n) !! j) as [j'|] eqn:Hj; [|discriminate].
  apply lookup_seq in Hj as [-> Hlt]. simpl in Hr. injection Hr as <-.
  destruct (Hu (rand_calls s + j)%nat) as [Hu0 Hu1]. fold u in Hu0, Hu1.
  split; [|split; [reflexivity|]].
  - simpl. fold u. unfold JS.lt.
    destruct (Qle_bool u (4 # 5)) eqn:E; simpl.
    + right. apply Qle_bool_iff in E. auto.
    + left. split; [|auto]. apply Qnot_le_lt. intros Hle.
      apply Qle_bool_iff in Hle. congruence.
  - exists (t' / 1000). split.
    + pose proof (Z.div_mod t' 1000 ltac:(lia)).
      pose proof (Z.mod_pos_bound t' 1000 ltac:(lia)). lia.
    + unfold render_record. cbn [fields].
      unfold JS.floor, JS.div_lit, of_Z. rewrite floor_div. reflexivity.
Qed.

(** A closed run of C2's statement: six flames, two records, one observation. *)
Lemma render_sample_emit_ceil_witness :
  exists (recs : list LogRecord) (s' : Server),
    api_render (rt := Sample.runtime) Sample.world
      {[ "duration" := VNum (Num (7 # 2)); "flameCount" := of_Z 6 ]} Sample.server =
      (Returned {| status := 200; payload := [("success", VBool true)] |}, s')
    /\ observed_at (registry s') "embers_render_duration_ms" = [7 # 2]
    /\ console s' = console Sample.server ++ recs
    /\ length recs = 2%nat.
Proof.
  destruct (render_sample_emit_ceil (rt := Sample.runtime) Sample.world Sample.server
              {[ "duration" := VNum (Num (7 # 2)); "flameCount" := of_Z 6 ]} (7 # 2) 6)
    as (n & recs & s' & Hn & Hrun & Hobs & _ & _ & Hcon & Hlen & _).
  - lia.
  - exact sample_draws.
  - exact wired_instruments.
  - reflexivity.
  - reflexivity.
  - assert (n = 2) as -> by lia.
    exists recs, s'. split; [exact Hrun|]. split; [exact Hobs|].
    split; [exact Hcon|]. lia.
Defined.

Section MoreEmitterFacts.
Implicit Types (reg : gmap string Instrument) (name : string) (labels : Labels).

Lemma gauge_at_put_ne name name' labels labels' n reg :
  name <> name' ->
  gauge_at (put_gauge name labels n reg) name' labels' = gauge_at reg name' labels'.
Proof. intros Hne. unfold gauge_at. by rewrite lookup_put_gauge_ne. Qed.

Lemma counter_at_add_ne name name' labels labels' a reg :
  name <> name' ->
  counter_at (add_counter name labels a reg) name' labels' = counter_at reg name' labels'.
Proof. intros Hne. unfold counter_at. by rewrite lookup_add_counter_ne. Qed.

Lemma counter_at_put_gauge name name' labels labels' n reg :
  counter_at (put_gauge name labels n reg) name' labels' = counter_at reg name' labels'.
Proof.
  unfold counter_at, put_gauge.
  destruct (reg !! name) as [[vals|vals|h]|] eqn:Hi; try done.
  destruct (decide (name = name')) as [->|Hne].
  - by rewrite lookup_insert_eq, Hi.
  - by rewrite lookup_insert_ne.
Qed.

End MoreEmitterFacts.

Section LoadChange.
Context {rt : Runtime} (w : World).

(** Everything a load-change request with a numeric, non-negative [count]
    does. *)
Lemma api_flames_effects (s : Server) (body : gmap string value) (c : Q) :
  wired (registry s) -> unit_draws w ->
  field body "count" = VNum (Num c) -> (0 <= c)%Q ->
  let action := field body "action" in
  let u := random w (rand_calls s) in
  let u' := random w (S (rand_calls s)) in
  let f := Qfloor (u' * 10) in
  exists s' : Server,
    api_flames w body s =
      (Returned {| status := 200;
                   payload := [("success", VBool true); ("count", VNum (Num c))] |}, s')
    /\ gauge_at (registry s') "embers_flame_count" [] = Some (Num c)
    /\ (if JS.truthy action
        then counter_at (registry s') "embers_button_clicks_total"
               [("button_type", JS.ToString action)]
             = (counter_at (registry s) "embers_button_clicks_total"
                  [("button_type", JS.ToString action)] + 1)%Q
        else registry s' !! "embers_button_clicks_total"
             = registry s !! "embers_button_clicks_total")
    /\ console s' = console s ++
         [{| level := VStr "info"; message := VStr "Flame count updated";
             fields := [("flame_count", VNum (Num c)); ("action", action);
                        ("timestamp", VStr (toISOString (clock w (clock_reads s))));
                        ("user_action", VBool true)] |}]
    /\ gauge_at (registry s') "embers_temperature_celsius" [] = Some (Num (800 + u * 400))
    /\ counter_at (registry s') "embers_sparks_emitted_total" []
       = (counter_at (registry s) "embers_sparks_emitted_total" [] + (inject_Z f + c))%Q
    /\ 0 <= f <= 9
    /\ (inject_Z f <= u' * 10)%Q /\ (u' * 10 < inject_Z f + 1)%Q.
Proof.
  intros Hw Hu Hc Hc0 action u u' f.
  destruct (Hu (S (rand_calls s))) as [Hu0 Hu1]. fold u' in Hu0, Hu1.
  destruct (floor_scaled u' 10 Hu0 Hu1) as (Hf & Hf1 & Hf2).
  change (Qfloor (u' * inject_Z 10)) with f in Hf, Hf1, Hf2.
  assert (Hpos : (0 <= inject_Z f + c)%Q).
  { assert (0 <= inject_Z f)%Q by (rewrite <- (Zle_Qle 0); lia). lra. }
  pose proof (api_flames_number w s body c Hw Hc Hpos) as Hrun. cbv zeta in Hrun.
  fold action u u' in Hrun.
  set (r1 := put_gauge "embers_flame_count" [] (Num c) (registry s)) in *.
  set (r2 := if JS.truthy action
             then add_counter "embers_button_clicks_total"
                    [("button_type", JS.ToString action)] 1 r1
             else r1) in *.
  set (r3 := put_gauge "embers_temperature_celsius" [] (Num (800 + u * 400)) r2) in *.
  assert (Hw1 : wired r1) by (by apply put_gauge_wired).
  assert (Hw2 : wired r2).
  { subst r2. destruct (JS.truthy action); [by apply add_counter_wired|done]. }
  assert (Hw3 : wired r3) by (by apply put_gauge_wired).
  eexists. split; [exact Hrun|]. cbn [registry console].
  split; [|split; [|split; [reflexivity|split; [|split; [|split; [lia|split; assumption]]]]]].
  - rewrite gauge_at_add_counter. subst r3. rewrite gauge_at_put_ne by done.
    subst r2. destruct (JS.truthy action).
    + rewrite gauge_at_add_counter. by apply gauge_at_put.
    + by apply gauge_at_put.
  - subst r2. destruct (JS.truthy action).
    + rewrite counter_at_add_ne by done. subst r3. rewrite counter_at_put_gauge.
      rewrite counter_at_add by done. subst r1. by rewrite counter_at_put_gauge.
    + rewrite lookup_add_counter_ne by done. subst r3.
      rewrite lookup_put_gauge_ne by done. subst r1.
      by rewrite lookup_put_gauge_ne.
  - rewrite gauge_at_add_counter. by apply gauge_at_put.
  - rewrite counter_at_add by done. f_equal.
    subst r3. rewrite counter_at_put_gauge.
    subst r2. destruct (JS.truthy action).
    + rewrite counter_at_add_ne by done. subst r1. by rewrite counter_at_put_gauge.
    + subst r1. by rewrite counter_at_put_gauge.
Qed.

End LoadChange.




(** The closed interval holds however the two operations round, as long as
    rounding keeps the order and returns 0, 400, 800 and 1200, which binary64
    holds exactly, as they are. *)
Lemma temperature_within_under_rounding (rnd : Q -> Q) (u : Q) :
  (forall x y, (x <= y)%Q -> (rnd x <= rnd y)%Q) ->
  (rnd 0 == 0)%Q -> (rnd 400 == 400)%Q -> (rnd 800 == 800)%Q -> (rnd 1200 == 1200)%Q ->
  (0 <= u)%Q -> (u < 1)%Q ->
  (800 <= Rounded.temperature rnd u)%Q /\ (Rounded.temperature rnd u <= 1200)%Q.
Proof.
  intros Hmono H0 H400 H800 H1200 Hu0 Hu1. unfold Rounded.temperature.
  pose proof (Hmono 0 (u * 400) ltac:(lra))%Q as Ha0.
  pose proof (Hmono (u * 400) 400 ltac:(lra))%Q as Ha1.
  set (a := rnd (u * 400)%Q) in *.
  set (r0 := rnd 0%Q) in *. set (r400 := rnd 400%Q) in *.
  pose proof (Hmono 800 (800 + a) ltac:(lra))%Q as Hb0.
  pose proof (Hmono (800 + a) 1200 ltac:(lra))%Q as Hb1.
  set (b := rnd (800 + a)%Q) in *.
  set (r800 := rnd 800%Q) in *. set (r1200 := rnd 1200%Q) in *.
  split; lra.
Qed.

(** C5.  A [POST /api/flames] with [{count: 15, action: "increase"}] answers
    [{success: true, count: 15}], sets the gauge [embers_flame_count] to 15,
    increments [embers_button_clicks_total{button_type="increase"}] by exactly
    1, and emits exactly one log record, at level [info], whose fields hold
    the load 15, the action ["increase"] and [user_action: true]. *)
Theorem flames_scenario {rt : Runtime} (w : World) (s : Server)
    (body : gmap string value) :
  unit_draws w -> wired (registry s) ->
  field body "count" = of_Z 15 -> field body "action" = VStr "increase" ->
  exists s' : Server,
    api_flames w body s =
      (Returned {| status := 200;
                   payload := [("success", VBool true); ("count", of_Z 15)] |}, s')
    /\ gauge_at (registry s') "embers_flame_count" [] = Some (Num 15)
    /\ counter_at (registry s') "embers_button_clicks_total" [("button_type", "increase")]
       = (counter_at (registry s) "embers_button_clicks_total" [("button_type", "increase")]
          + 1)%Q
    /\ console s' = console s ++
         [{| level := VStr "info"; message := VStr "Flame count updated";
             fields := [("flame_count", of_Z 15); ("action", VStr "increase");
                        ("timestamp", VStr (toISOString (clock w (clock_reads s))));
                        ("user_action", VBool true)] |}].
Proof.
  intros Hu Hw Hc Ha.
  destruct (api_flames_effects w s body (inject_Z 15) Hw Hu Hc ltac:(done))
    as (s' & Hrun & Hfc & Hclick & Hcon & _).
  rewrite Ha in Hclick, Hcon. simpl in Hclick.
  exists s'. split; [exact Hrun|]. split; [exact Hfc|]. split; [exact Hclick|exact Hcon].
Qed.

Lemma flames_scenario_witness :
  exists s' : Server,
    api_flames (rt := Sample.runtime) Sample.world
      {[ "count" := of_Z 15; "action" := VStr "increase" ]} Sample.server =
      (Returned {| status := 200;
                   payload := [("success", VBool true); ("count", of_Z 15)] |}, s')
    /\ gauge_at (registry s') "embers_flame_count" [] = Some (Num 15)
    /\ length (console s') = 2%nat.
Proof.
  destruct (flames_scenario (rt := Sample.runtime) Sample.world Sample.server
              {[ "count" := of_Z 15; "action" := VStr "increase" ]})
    as (s' & Hrun & Hfc & _ & Hcon).
  - exact sample_draws.
  - exact wired_instruments.
  - reflexivity.
  - reflexivity.
  - exists s'. split; [exact Hrun|]. split; [exact Hfc|]. by rewrite Hcon.
Defined.

(** C10.  For a [POST /api/flames] whose [count] is a number at or above
    zero, the button-click counter is incremented exactly when [action] is
    truthy: by 1, under the label [button_type = action], when it is; not at
    all when it is not, in particular when [action] is absent or the empty
    string.  Either way the flame-count gauge is set, the single [info] record
    is logged with its [action] field, the temperature is set, the sparks
    counter grows, and the answer is [{success: true, count}]. *)
Theorem click_counted_iff_action_truthy {rt : Runtime} (w : World) (s : Server)
    (body : gmap string value) (c : Q) :
  (0 <= c)%Q -> unit_draws w -> wired (registry s) ->
  field body "count" = VNum (Num c) ->
  let action := field body "action" in
  let label := [("button_type", JS.ToString action)] in
  exists s' : Server,
    api_flames w body s =
      (Returned {| status := 200;
                   payload := [("success", VBool true); ("count", VNum (Num c))] |}, s')
    /\ (JS.truthy action = true ->
          counter_at (registry s') "embers_button_clicks_total" label
          = (counter_at (registry s) "embers_button_clicks_total" label + 1)%Q)
    /\ (JS.truthy action = false ->
          registry s' !! "embers_button_clicks_total"
          = registry s !! "embers_button_clicks_total")
    /\ (action = VUndefined \/ action = VStr "" -> JS.truthy action = false)
    /\ gauge_at (registry s') "embers_flame_count" [] = Some (Num c)
    /\ console s' = console s ++
         [{| level := VStr "info"; message := VStr "Flame count updated";
             fields := [("flame_count", VNum (Num c)); ("action", action);
                        ("timestamp", VStr (toISOString (clock w (clock_reads s))));
                        ("user_action", VBool true)] |}]
    /\ (exists t, gauge_at (registry s') "embers_temperature_celsius" [] = Some (Num t))
    /\ (counter_at (registry s) "embers_sparks_emitted_total" [] + c
        <= counter_at (registry s') "embers_sparks_emitted_total" [])%Q.
Proof.
  intros Hc0 Hu Hw Hc action label.
  destruct (api_flames_effects w s body c Hw Hu Hc Hc0)
    as (s' & Hrun & Hfc & Hclick & Hcon & Htemp & Hsparks & Hf & _).
  fold action in Hclick, Hcon.
  exists s'. split; [exact Hrun|].
  split; [intros Ht; by rewrite Ht in Hclick|].
  split; [intros Ht; by rewrite Ht in Hclick|].
  split; [intros [->| ->]; reflexivity|].
  split; [exact Hfc|]. split; [exact Hcon|]. split; [eauto|].
  rewrite Hsparks.
  assert (0 <= inject_Z (Qfloor (random w (S (rand_calls s)) * 10)))%Q
    by (rewrite <- (Zle_Qle 0); lia).
  set (x := counter_at (registry s) "embers_sparks_emitted_total" []) in *.
  set (y := inject_Z (Qfloor (random w (S (rand_calls s)) * 10))) in *. lra.
Qed.

Lemma click_counted_iff_action_truthy_witness :
  exists s' : Server,
    api_flames (rt := Sample.runtime) Sample.world {[ "count" := of_Z 10 ]} Sample.server =
      (Returned {| status := 200;
                   payload := [("success", VBool true); ("count", of_Z 10)] |}, s')
    /\ registry s' !! "embers_button_clicks_total" = Some (ICounter ∅)
    /\ gauge_at (registry s') "embers_flame_count" [] = Some (Num 10).
Proof.
  destruct (click_counted_iff_action_truthy (rt := Sample.runtime) Sample.world
              Sample.server {[ "count" := of_Z 10 ]} 10)
    as (s' & Hrun & _ & Hno & _ & Hfc & _).
  - done.
  - exact sample_draws.
  - exact wired_instruments.
  - reflexivity.
  - exists s'. split; [exact Hrun|]. split; [|exact Hfc].
    rewrite Hno by reflexivity. reflexivity.
Defined.

(** ** Relations kept by computations *)

Section Keeps.
Context {rt : Runtime} (w : World).
Context (R : Server -> Server -> Prop) `{!Reflexive R} `{!Transitive R}.

Lemma keeps_ret {A} (a : A) : keeps R (mret a).
Proof. intros s. simpl. reflexivity. Qed.

Lemma keeps_bind {A B} (m : M A) (f : A -> M B) :
  keeps R m -> (forall a, keeps R (f a)) -> keeps R (m ≫= f).
Proof.
  intros Hm Hf s. unfold mbind, M_bind. specialize (Hm s).
  destruct (m s) as [[a|e] s1]; simpl in *; [|done].
  etransitivity; [exact Hm|apply Hf].
Qed.

Lemma keeps_for_from (body : Z -> M unit) (n : nat) :
  (forall i, keeps R (body i)) -> forall i, keeps R (for_from i n body).
Proof.
  intros Hb. induction n as [|n IH]; intros i; simpl.
  - apply keeps_ret.
  - apply keeps_bind; [apply Hb|intros _; apply IH].
Qed.

Lemma keeps_instrument op :
  (forall s r, op (registry s) = inr r -> R s (with_registry r s)) ->
  keeps R (instrument op).
Proof.
  intros Hop s. unfold instrument.
  destruct (op (registry s)) as [e|r] eqn:E; simpl; [reflexivity|by apply Hop].
Qed.

End Keeps.

#[export] Instance clock_forward_refl : Reflexive clock_forward.
Proof. intros s. split; [lia|done]. Qed.

#[export] Instance clock_forward_trans : Transitive clock_forward.
Proof. intros a b c [H1 H2] [H3 H4]. split; [lia|congruence]. Qed.

#[export] Instance stays_wired_refl : Reflexive stays_wired.
Proof. intros s Hw. exact Hw. Qed.

#[export] Instance stays_wired_trans : Transitive stays_wired.
Proof. intros a b c H1 H2 Hw. auto. Qed.

#[export] Instance flame_gauge_stays_refl : Reflexive flame_gauge_stays.
Proof. intros s Hw. done. Qed.

#[export] Instance flame_gauge_stays_trans : Transitive flame_gauge_stays.
Proof.
  intros a b c H1 H2 Hw. destruct (H1 Hw) as [Hb Eb]. destruct (H2 Hb) as [Hc Ec].
  split; [done|congruence].
Qed.

Section KeptByHandlers.
Context {rt : Runtime} (w : World).

Lemma keeps_weaken {A} (R R' : Server -> Server -> Prop) (m : M A) :
  (forall s s', R s s' -> R' s s') -> keeps R m -> keeps R' m.
Proof. intros Hsub Hm s. apply Hsub, Hm. Qed.

Lemma Math_random_quiet : keeps quiet (Math_random w).
Proof. intros s. unfold quiet, Math_random. simpl. done. Qed.

Lemma Date_now_quiet : keeps quiet (Date_now w).
Proof. intros s. unfold quiet, Date_now. simpl. split; [done|split; [done|lia]]. Qed.

Lemma logger_log_quiet lvl msg meta : keeps quiet (logger_log lvl msg meta).
Proof. intros s. unfold quiet, logger_log. simpl. done. Qed.

Lemma get_startTime_quiet : keeps quiet get_startTime.
Proof. intros s. unfold quiet, get_startTime. simpl. done. Qed.

Lemma quiet_clock_forward s s' : quiet s s' -> clock_forward s s'.
Proof. intros (_ & Hs & Hc). done. Qed.

Lemma quiet_stays_wired s s' : quiet s s' -> stays_wired s s'.
Proof. intros (Hr & _) Hw. by rewrite Hr. Qed.

Lemma quiet_flame_gauge_stays s s' : quiet s s' -> flame_gauge_stays s s'.
Proof. intros (Hr & _) Hw. by rewrite Hr. Qed.

Lemma setGauge_inr name labels v reg r :
  Emitter.setGauge name labels v reg = inr r ->
  exists n, v = VNum n /\ r = put_gauge name labels n reg.
Proof.
  unfold Emitter.setGauge, put_gauge.
  destruct (reg !! name) as [[vals|vals|h]|]; try discriminate.
  destruct v; try discriminate. intros [= <-]. eauto.
Qed.

Lemma incrementCounter_inr name labels v reg r :
  Emitter.incrementCounter name labels v reg = inr r ->
  exists a, r = add_counter name labels a reg.
Proof.
  unfold Emitter.incrementCounter, add_counter.
  destruct (reg !! name) as [[vals|vals|h]|]; try discriminate.
  destruct (Emitter.amount_of v); try discriminate. intros [= <-]. eauto.
Qed.

Lemma observeHistogram_inr name v reg r :
  Emitter.observeHistogram name v reg = inr r ->
  exists q, r = add_observation name q reg.
Proof.
  unfold Emitter.observeHistogram, add_observation.
  destruct (reg !! name) as [[vals|vals|h]|]; try discriminate.
  destruct v as [| | |[|q]| |]; try discriminate. intros [= <-]. eauto.
Qed.

Lemma instrument_clock op : keeps clock_forward (instrument op).
Proof.
  apply keeps_instrument; [apply _|]. intros s r _.
  unfold clock_forward, with_registry. simpl. split; [lia|done].
Qed.

Lemma setGauge_stays_wired name labels v :
  keeps stays_wired (instrument (Emitter.setGauge name labels v)).
Proof.
  apply keeps_instrument; [apply _|]. intros s r Hop Hw. simpl.
  eapply setGauge_wired; eauto.
Qed.

Lemma incrementCounter_stays_wired name labels v :
  keeps stays_wired (instrument (Emitter.incrementCounter name labels v)).
Proof.
  apply keeps_instrument; [apply _|]. intros s r Hop Hw. simpl.
  eapply incrementCounter_wired; eauto.
Qed.

Lemma observeHistogram_stays_wired name v :
  keeps stays_wired (instrument (Emitter.observeHistogram name v)).
Proof.
  apply keeps_instrument; [apply _|]. intros s r Hop Hw. simpl.
  eapply observeHistogram_wired; eauto.
Qed.

Lemma setGauge_other_gauge name labels v :
  name <> "embers_flame_count"%string ->
  keeps flame_gauge_stays (instrument (Emitter.setGauge name labels v)).
Proof.
  intros Hne. apply keeps_instrument; [apply _|]. intros s r Hop Hw. simpl.
  split; [eapply setGauge_wired; eauto|].
  apply setGauge_inr in Hop as (n & _ & ->). by apply gauge_at_put_ne.
Qed.

Lemma incrementCounter_flame_gauge name labels v :
  keeps flame_gauge_stays (instrument (Emitter.incrementCounter name labels v)).
Proof.
  apply keeps_instrument; [apply _|]. intros s r Hop Hw. simpl.
  split; [eapply incrementCounter_wired; eauto|].
  apply incrementCounter_inr in Hop as (a & ->). apply gauge_at_add_counter.
Qed.

Lemma observeHistogram_flame_gauge name v :
  keeps flame_gauge_stays (instrument (Emitter.observeHistogram name v)).
Proof.
  apply keeps_instrument; [apply _|]. intros s r Hop Hw. simpl.
  split; [eapply observeHistogram_wired; eauto|].
  apply observeHistogram_inr in Hop as (q & ->). apply gauge_at_add_observation.
Qed.

End KeptByHandlers.

(** Walks a handler bind by bind. *)
Ltac keeps_walk quiet_sub :=
  repeat first
    [ apply keeps_ret; solve [apply _]
    | apply keeps_bind; [solve [apply _] | | intros ?]
    | apply keeps_for_from; [solve [apply _] | solve [apply _] | intros ?]
    | eapply keeps_weaken;
        [exact quiet_sub
        | first [apply Math_random_quiet | apply Date_now_quiet
                | apply logger_log_quiet | apply get_startTime_quiet]]
    | apply instrument_clock
    | apply setGauge_stays_wired
    | apply incrementCounter_stays_wired
    | apply observeHistogram_stays_wired
    | apply incrementCounter_flame_gauge
    | apply observeHistogram_flame_gauge
    | apply setGauge_other_gauge; discriminate
    | match goal with |- keeps _ (if ?b then _ else _) => destruct b end
    | rewrite for_loop_unroll
    | progress unfold res_json, logger_info ].

Section HandlersKeep.
Context {rt : Runtime} (w : World).

Lemma api_flames_clock body : keeps clock_forward (api_flames w body).
Proof. unfold api_flames. keeps_walk quiet_clock_forward. Qed.

Lemma api_render_clock body : keeps clock_forward (api_render w body).
Proof. unfold api_render. keeps_walk quiet_clock_forward. Qed.

Lemma api_logs_clock body : keeps clock_forward (api_logs w body).
Proof. unfold api_logs. keeps_walk quiet_clock_forward. Qed.

Lemma health_clock : keeps clock_forward (health w).
Proof. unfold health. keeps_walk quiet_clock_forward. Qed.

Lemma uptime_tick_clock : keeps clock_forward (uptime_tick w).
Proof. unfold uptime_tick. keeps_walk quiet_clock_forward. Qed.

Lemma api_flames_wired body : keeps stays_wired (api_flames w body).
Proof. unfold api_flames. keeps_walk quiet_stays_wired. Qed.

Lemma api_render_flame_gauge body : keeps flame_gauge_stays (api_render w body).
Proof. unfold api_render. keeps_walk quiet_flame_gauge_stays. Qed.

Lemma api_logs_flame_gauge body : keeps flame_gauge_stays (api_logs w body).
Proof. unfold api_logs. keeps_walk quiet_flame_gauge_stays. Qed.

Lemma health_flame_gauge : keeps flame_gauge_stays (health w).
Proof. unfold health. keeps_walk quiet_flame_gauge_stays. Qed.

Lemma uptime_tick_flame_gauge : keeps flame_gauge_stays (uptime_tick w).
Proof. unfold uptime_tick. keeps_walk quiet_flame_gauge_stays. Qed.

End HandlersKeep.

Section Dispatch.
Context {rt : Runtime} (w : World).

Lemma reply_of_state (r : outcome Response * Server) : (reply_of r).2 = r.2.
Proof. destruct r as [[x|e] s]; reflexivity. Qed.

Lemma run_cons ev evs s :
  run w (ev :: evs) s =
    ((dispatch w ev s).1 :: (run w evs (dispatch w ev s).2).1,
     (run w evs (dispatch w ev s).2).2).
Proof.
  simpl. destruct (dispatch w ev s) as [r s1]. simpl.
  destruct (run w evs s1) as [rs s2]. reflexivity.
Qed.

Lemma run_app evs1 evs2 s :
  (run w (evs1 ++ evs2) s).2 = (run w evs2 (run w evs1 s).2).2.
Proof.
  revert s. induction evs1 as [|ev evs1 IH]; intros s; [reflexivity|].
  rewrite <- app_comm_cons, !run_cons. simpl. apply IH.
Qed.

Lemma dispatch_clock ev s : clock_forward s (dispatch w ev s).2.
Proof.
  destruct ev; unfold dispatch; rewrite ?reply_of_state; cbn [snd].
  - apply api_flames_clock.
  - apply api_render_clock.
  - apply api_logs_clock.
  - reflexivity.
  - apply health_clock.
  - apply uptime_tick_clock.
Qed.

Lemma flame_gauge_stays_wired s s' : flame_gauge_stays s s' -> stays_wired s s'.
Proof. intros Hs Hw. by destruct (Hs Hw). Qed.

Lemma dispatch_flame_gauge ev s :
  ~ is_flames ev -> flame_gauge_stays s (dispatch w ev s).2.
Proof.
  destruct ev; unfold dispatch; rewrite ?reply_of_state; cbn [snd]; intros Hnf.
  - by destruct Hnf.
  - apply api_render_flame_gauge.
  - apply api_logs_flame_gauge.
  - reflexivity.
  - apply health_flame_gauge.
  - apply uptime_tick_flame_gauge.
Qed.

Lemma dispatch_wired ev s : stays_wired s (dispatch w ev s).2.
Proof.
  destruct ev; try (apply flame_gauge_stays_wired, dispatch_flame_gauge; by intros []).
  unfold dispatch. rewrite reply_of_state. apply api_flames_wired.
Qed.

Lemma run_wired evs s : stays_wired s (run w evs s).2.
Proof.
  revert s. induction evs as [|ev evs IH]; intros s; [reflexivity|].
  rewrite run_cons. simpl. etransitivity; [apply dispatch_wired|apply IH].
Qed.

Lemma run_flame_gauge evs s :
  Forall (fun ev => ~ is_flames ev) evs -> flame_gauge_stays s (run w evs s).2.
Proof.
  intros Hevs. revert s. induction Hevs as [|ev evs Hev _ IH]; intros s; [reflexivity|].
  rewrite run_cons. simpl. etransitivity; [by apply dispatch_flame_gauge|apply IH].
Qed.

(** A load-change request with a numeric [count] leaves the flame-count
    gauge at that count, even when a later step of the handler throws. *)
Lemma api_flames_sets_gauge body c s :
  wired (registry s) -> field body "count" = VNum c ->
  wired (registry (api_flames w body s).2)
  /\ gauge_at (registry (api_flames w body s).2) "embers_flame_count" [] = Some c.
Proof.
  intros Hw Hc.
  set (s1 := with_registry (put_gauge "embers_flame_count" [] c (registry s)) s).
  assert (Hw1 : wired (registry s1)) by (by apply put_gauge_wired).
  assert (Hg1 : gauge_at (registry s1) "embers_flame_count" [] = Some c)
    by (by apply gauge_at_put).
  assert (E : exists m : M Response,
             keeps flame_gauge_stays m /\ api_flames w body s = m s1).
  { eexists. split; cycle 1.
    - unfold api_flames. rewrite Hc.
      unfold mbind at 1. unfold M_bind at 1.
      rewrite (instrument_ok _ (put_gauge "embers_flame_count" [] c (registry s)))
        by (by apply setGauge_number).
      fold s1. cbv beta iota. reflexivity.
    - cbv beta. keeps_walk quiet_flame_gauge_stays. }
  destruct E as (m & K & ->). destruct (K s1 Hw1) as [Hw' Hg'].
  split; [exact Hw'|]. rewrite Hg'. exact Hg1.
Qed.

End Dispatch.

(** ** The scrape and the last [setGauge] *)

Section Scrape.
Implicit Types (reg : gmap string Instrument) (name : string) (labels : Labels).

(** What the scrape shows of a gauge is what the gauge holds. *)
Lemma scrape_gauge reg name labels v :
  is_gauge reg name ->
  SValue name labels v ∈ Emitter.scrapeSnapshot reg <-> gauge_at reg name labels = Some v.
Proof.
  intros [vals Hi]. unfold Emitter.scrapeSnapshot, gauge_at. rewrite Hi.
  rewrite list_elem_of_bind. split.
  - intros ([name' i] & Hin & Hreg). apply elem_of_map_to_list in Hreg.
    simpl in Hin. destruct i as [vals'|vals'|h]; simpl in Hin.
    + apply list_elem_of_fmap in Hin as ([l x] & Heq & Hkv).
      simpl in Heq. injection Heq as -> -> ->.
      apply elem_of_map_to_list in Hkv. congruence.
    + apply list_elem_of_fmap in Hin as ([l x] & Heq & Hkv).
      simpl in Heq. injection Heq as -> -> ->. congruence.
    + apply elem_of_app in Hin as [Hin|Hin].
      * apply list_elem_of_fmap in Hin as (b & Heq & _). discriminate.
      * repeat (apply elem_of_cons in Hin as [Heq|Hin]; [discriminate|]).
        by apply elem_of_nil in Hin.
  - intros Hv. exists (name, IGauge vals). split.
    + simpl. apply list_elem_of_fmap. exists (labels, v). split; [done|].
      by apply elem_of_map_to_list.
    + by apply elem_of_map_to_list.
Qed.

Lemma is_gauge_insert reg name name' i i' :
  reg !! name' = Some i -> kind_of i' = kind_of i ->
  is_gauge reg name -> is_gauge (<[name' := i']> reg) name.
Proof.
  intros Hi Hk [vals Hg]. unfold is_gauge.
  destruct (decide (name' = name)) as [->|Hne].
  - rewrite lookup_insert_eq. rewrite Hg in Hi. injection Hi as <-.
    destruct i'; try discriminate. eauto.
  - rewrite lookup_insert_ne by done. eauto.
Qed.

Lemma apply_op_is_gauge op reg name : is_gauge reg name -> is_gauge (apply_op op reg) name.
Proof.
  intros Hg. unfold apply_op.
  destruct op as [n l v|n l v|n v]; simpl.
  - unfold Emitter.setGauge.
    destruct (reg !! n) as [[vals|vals|h]|] eqn:Hi; try done.
    destruct v; try done. eapply is_gauge_insert; eauto.
  - unfold Emitter.incrementCounter.
    destruct (reg !! n) as [[vals|vals|h]|] eqn:Hi; try done.
    destruct (Emitter.amount_of v); try done. eapply is_gauge_insert; eauto.
  - unfold Emitter.observeHistogram.
    destruct (reg !! n) as [[vals|vals|h]|] eqn:Hi; try done.
    destruct v as [| | |[|q]| |]; try done. eapply is_gauge_insert; eauto.
Qed.

Lemma run_ops_is_gauge ops reg name : is_gauge reg name -> is_gauge (run_ops ops reg) name.
Proof.
  revert reg. induction ops as [|op ops IH]; intros reg Hg; [done|].
  simpl. apply IH. by apply apply_op_is_gauge.
Qed.

Lemma apply_op_set reg name labels x :
  is_gauge reg name ->
  gauge_at (apply_op (OpSet name labels (VNum x)) reg) name labels = Some x.
Proof.
  intros [vals Hi]. unfold apply_op, Emitter.setGauge, gauge_at. rewrite Hi.
  rewrite lookup_insert_eq. apply lookup_insert_eq.
Qed.

(** An operation that is no [setGauge] on this gauge and label set leaves
    its reading alone. *)
Lemma apply_op_other op reg name labels :
  ~ sets_gauge name labels op ->
  gauge_at (apply_op op reg) name labels = gauge_at reg name labels.
Proof.
  intros Hop. unfold apply_op.
  destruct op as [n l v|n l v|n v]; simpl in *.
  - destruct (Emitter.setGauge n l v reg) as [e|r] eqn:E; [done|].
    apply setGauge_inr in E as (x & _ & ->).
    destruct (decide (n = name)) as [->|Hne].
    + apply gauge_at_put_labels. intros ->. by apply Hop.
    + by apply gauge_at_put_ne.
  - destruct (Emitter.incrementCounter n l v reg) as [e|r] eqn:E; [done|].
    apply incrementCounter_inr in E as (a & ->). apply gauge_at_add_counter.
  - destruct (Emitter.observeHistogram n v reg) as [e|r] eqn:E; [done|].
    apply observeHistogram_inr in E as (q & ->). apply gauge_at_add_observation.
Qed.

Lemma run_ops_other ops reg name labels :
  Forall (fun op => ~ sets_gauge name labels op) ops ->
  gauge_at (run_ops ops reg) name labels = gauge_at reg name labels.
Proof.
  intros Hops. revert reg. induction Hops as [|op ops Hop _ IH]; intros reg; [done|].
  simpl. rewrite IH. by apply apply_op_other.
Qed.

Lemma wired_is_gauge reg name :
  wired reg -> (kind_of <$> instruments) !! name = Some KGauge -> is_gauge reg name.
Proof. apply wired_gauge. Qed.

End Scrape.

(** C6.  After any sequence of instrument operations, the scrape shows for a
    gauge and label set exactly the value of the most recent [setGauge] on
    it, whatever operations on other instruments (or other label sets) came
    in between; and after any sequence of requests and ticks since start-up,
    [GET /metrics] shows for [embers_flame_count] exactly the count of the
    most recent [/api/flames] request. *)
Theorem scrape_reflects_last_set {rt : Runtime} (w : World) (port : value)
    (reg : gmap string Instrument) (ops1 ops2 : list Op)
    (name : string) (labels : Labels) (x : number)
    (evs1 evs2 : list Event) (body : gmap string value) (c : number) :
  is_gauge reg name ->
  Forall (fun op => ~ sets_gauge name labels op) ops2 ->
  field body "count" = VNum c ->
  Forall (fun ev => ~ is_flames ev) evs2 ->
  (forall v,
     SValue name labels v
       ∈ Emitter.scrapeSnapshot (run_ops (ops1 ++ OpSet name labels (VNum x) :: ops2) reg)
     <-> v = x)
  /\ exists samples,
       (dispatch w GetMetrics
          (run w (evs1 ++ PostFlames body :: evs2) (boot w port)).2).1
       = Exposition samples
       /\ forall v, SValue "embers_flame_count" [] v ∈ samples <-> v = c.
Proof.
  intros Hg Hops Hc Hevs. split.
  - intros v. unfold run_ops. rewrite foldl_app. simpl.
    fold (run_ops ops1 reg).
    set (reg1 := run_ops ops1 reg).
    fold (run_ops ops2 (apply_op (OpSet name labels (VNum x)) reg1)).
    assert (Hg1 : is_gauge reg1 name) by (by apply run_ops_is_gauge).
    rewrite scrape_gauge
      by (by apply run_ops_is_gauge, apply_op_is_gauge).
    rewrite run_ops_other by done. rewrite apply_op_set by done.
    split; [by intros [= ->]|by intros ->].
  - eexists. split; [reflexivity|]. intros v.
    rewrite run_app, run_cons. cbn [snd].
    set (s1 := (run w evs1 (boot w port)).2).
    assert (Hw1 : wired (registry s1)).
    { apply (run_wired w evs1 (boot w port)). exact wired_instruments. }
    unfold dispatch at 1. rewrite reply_of_state.
    destruct (api_flames_sets_gauge w body c s1 Hw1 Hc) as [Hw2 Hg2].
    destruct (run_flame_gauge w evs2 (api_flames w body s1).2 Hevs Hw2) as [Hw3 Hg3].
    rewrite scrape_gauge by (by apply wired_is_gauge).
    rewrite Hg3, Hg2. split; [by intros [= ->]|by intros ->].
Qed.

Lemma scrape_reflects_last_set_witness :
  (forall v,
     SValue "embers_temperature_celsius" [] v
       ∈ Emitter.scrapeSnapshot
           (run_ops ([OpSet "embers_temperature_celsius" [] (of_Z 900)]
                     ++ OpSet "embers_temperature_celsius" [] (VNum (Num 1000))
                        :: [OpInc "embers_sparks_emitted_total" [] (of_Z 3);
                            OpSet "embers_flame_count" [] (of_Z 5);
                            OpObserve "embers_render_duration_ms" (of_Z 2)])
              instruments)
     <-> v = Num 1000)
  /\ exists samples,
       (dispatch (rt := Sample.runtime) Sample.world GetMetrics
          (run (rt := Sample.runtime) Sample.world
             ([PostFlames {[ "count" := of_Z 10 ]}; GetHealth]
              ++ PostFlames {[ "count" := of_Z 15; "action" := VStr "increase" ]}
                 :: [PostLogs {[ "flameCount" := of_Z 15 ]}; Tick;
                     PostRender {[ "duration" := of_Z 3; "flameCount" := of_Z 15 ]}])
             Sample.server).2).1
       = Exposition samples
       /\ forall v, SValue "embers_flame_count" [] v ∈ samples <-> v = Num 15.
Proof.
  apply (scrape_reflects_last_set (rt := Sample.runtime) Sample.world (of_Z 3000)).
  - eexists. reflexivity.
  - repeat constructor; simpl; intros []; discriminate.
  - reflexivity.
  - repeat constructor; simpl; tauto.
Defined.

(** ** Health *)

Section Health.
Context {rt : Runtime} (w : World).

Lemma run_clock evs s : clock_forward s (run w evs s).2.
Proof.
  revert s. induction evs as [|ev evs IH]; intros s; [reflexivity|].
  rewrite run_cons. cbn [snd]. etransitivity; [apply dispatch_clock|apply IH].
Qed.



Lemma health_run s :
  (dispatch w GetHealth s).1
  = health_reply (inject_Z (clock w (clock_reads s) - startTime s) / inject_Z 1000).
Proof. reflexivity. Qed.

Lemma uptime_le (t1 t2 t0 : Z) :
  t1 <= t2 ->
  (inject_Z (t1 - t0) / inject_Z 1000 <= inject_Z (t2 - t0) / inject_Z 1000)%Q.
Proof.
  intros Ht. unfold Qle, Qdiv, Qmult, Qinv, inject_Z. cbn -[Z.mul]. lia.
Qed.


End Health.


Lemma sample_clock : clock_monotone Sample.world.
Proof. intros i j Hij. unfold Sample.world. simpl. lia. Qed.



(** ** Requests with missing or ill-typed fields *)

Section BadBodies.
Context {rt : Runtime} (w : World).










End BadBodies.







(** ** The client driver *)

Section ClientFacts.
Context (w : World).
Import Client.

Lemma length_createParticles n x y k : length (createParticles w n x y k) = n.
Proof. revert k. induction n as [|n IH]; intros k; simpl; [done|]. by rewrite IH. Qed.

Lemma length_layout n i spacing h k : length (layout w n i spacing h k) = n.
Proof.
  revert i k. induction n as [|n IH]; intros i k; cbn [layout length]; [done|].
  by rewrite IH.
Qed.

Lemma layout_particles n i spacing h k :
  Forall (fun f => length (particles f) = 20%nat) (layout w n i spacing h k).
Proof.
  revert i k. induction n as [|n IH]; intros i k; cbn [layout]; constructor.
  - cbn [particles]. apply length_createParticles.
  - apply IH.
Qed.

Lemma increaseBtn_accepted d :
  flameCount d < 500 ->
  flameCount (increaseBtn w d) = flameCount d + 5
  /\ sent (increaseBtn w d) = sent d ++ [FlameUpdate (flameCount d + 5) "increase"].
Proof.
  intros Hlt. unfold increaseBtn. destruct (Z.ltb_spec (flameCount d) 500); [|lia].
  split; reflexivity.
Qed.

Lemma increaseBtn_ignored d : flameCount d = 500 -> increaseBtn w d = d.
Proof.
  intros Heq. unfold increaseBtn. destruct (Z.ltb_spec (flameCount d) 500); [lia|done].
Qed.

Lemma decreaseBtn_accepted d :
  5 < flameCount d ->
  flameCount (decreaseBtn w d) = flameCount d - 5
  /\ sent (decreaseBtn w d) = sent d ++ [FlameUpdate (flameCount d - 5) "decrease"].
Proof.
  intros Hlt. unfold decreaseBtn. destruct (Z.ltb_spec 5 (flameCount d)); [|lia].
  split; reflexivity.
Qed.

Lemma decreaseBtn_ignored d : flameCount d = 5 -> decreaseBtn w d = d.
Proof.
  intros Heq. unfold decreaseBtn. destruct (Z.ltb_spec 5 (flameCount d)); [lia|done].
Qed.

Lemma increaseBtn_in_range d : in_range d -> in_range (increaseBtn w d).
Proof.
  intros [Hr Hm]. unfold increaseBtn.
  destruct (Z.ltb_spec (flameCount d) 500); [|done].
  unfold in_range. simpl. split; [|by rewrite Z.add_mod, Hm by lia].
  assert (flameCount d mod 5 = 0 -> flameCount d < 500 -> flameCount d <= 495) as Hle.
  { intros Hm' Hlt. pose proof (Z.div_mod (flameCount d) 5 ltac:(lia)). lia. }
  specialize (Hle Hm H). lia.
Qed.

Lemma decreaseBtn_in_range d : in_range d -> in_range (decreaseBtn w d).
Proof.
  intros [Hr Hm]. unfold decreaseBtn.
  destruct (Z.ltb_spec 5 (flameCount d)); [|done].
  unfold in_range. simpl.
  pose proof (Z.div_mod (flameCount d) 5 ltac:(lia)) as Hdm. rewrite Hm in Hdm.
  split; [lia|].
  replace (flameCount d - 5) with ((flameCount d / 5 - 1) * 5) by lia.
  apply Z.mod_mul. lia.
Qed.

Lemma handle_in_range e d : in_range d -> in_range (handle w e d).
Proof.
  intros Hd. destruct e as [| |key|iw ih]; simpl.
  - by apply increaseBtn_in_range.
  - by apply decreaseBtn_in_range.
  - unfold keydown.
    destruct (String.eqb key "+" || String.eqb key "=");
      [by apply increaseBtn_in_range|].
    destruct (String.eqb key "-" || String.eqb key "_");
      [by apply decreaseBtn_in_range|done].
  - exact Hd.
Qed.

End ClientFacts.

Section ClientRange.
Context (w : World).
Import Client.

Lemma start_in_range iw ih : in_range (start w iw ih).
Proof. unfold in_range, start. cbn. split; [lia|reflexivity]. Qed.

Lemma play_in_range evs d : in_range d -> in_range (play w evs d).
Proof.
  revert d. induction evs as [|e evs IH]; intros d Hd; [done|].
  simpl. apply IH. by apply handle_in_range.
Qed.

End ClientRange.

(** C8, as the code has it.  From its start, and after every user action and
    resize, the load level stays a multiple of five within [[5, 500]].  An
    increase (button, or key [+] or [=]) below 500 raises the level by exactly
    5 and sends exactly one load-change request, carrying the new level; at
    500 it is ignored: nothing changes and nothing is sent.  A decrease
    (button, or key [-] or [_]) above 5 lowers the level by exactly 5 and
    sends exactly one load-change request; at 5 it is ignored.  A resize lays
    the flames out again for the new size, one per unit of load with twenty
    particles each, and sends nothing. *)
Theorem user_actions_adjust_by_five (w : World) (d : Client.Driver) :
  Client.in_range d ->
  (forall evs iw ih, Client.in_range (Client.play w evs (Client.start w iw ih)))
  /\ (forall e, Client.in_range (Client.handle w e d))
  /\ (forall e, e ∈ [Client.ClickIncrease; Client.KeyDown "+"; Client.KeyDown "="] ->
        let d' := Client.handle w e d in
        (Client.flameCount d < 500 ->
           Client.flameCount d' = Client.flameCount d + 5
           /\ Client.sent d'
              = Client.sent d ++ [Client.FlameUpdate (Client.flameCount d') "increase"])
        /\ (Client.flameCount d = 500 -> d' = d))
  /\ (forall e, e ∈ [Client.ClickDecrease; Client.KeyDown "-"; Client.KeyDown "_"] ->
        let d' := Client.handle w e d in
        (5 < Client.flameCount d ->
           Client.flameCount d' = Client.flameCount d - 5
           /\ Client.sent d'
              = Client.sent d ++ [Client.FlameUpdate (Client.flameCount d') "decrease"])
        /\ (Client.flameCount d = 5 -> d' = d))
  /\ (forall iw ih,
        let d' := Client.handle w (Client.Resize iw ih) d in
        Client.flameCount d' = Client.flameCount d
        /\ Client.sent d' = Client.sent d
        /\ Client.width d' = iw /\ Client.height d' = ih
        /\ length (Client.flames d') = Z.to_nat (Client.flameCount d)
        /\ Forall (fun f => length (Client.particles f) = 20%nat) (Client.flames d')).
Proof.
  intros Hd.
  split; [intros evs iw ih; apply play_in_range, start_in_range|].
  split; [intros e; by apply handle_in_range|].
  split; [|split].
  - intros e He d'.
    assert (Hd' : d' = Client.increaseBtn w d).
    { subst d'. repeat (apply elem_of_cons in He as [->|He]; [reflexivity|]).
      by apply elem_of_nil in He. }
    rewrite Hd'. split.
    + intros Hlt. destruct (increaseBtn_accepted w d Hlt) as [Hfc Hsent].
      split; [exact Hfc|]. by rewrite Hsent, Hfc.
    + apply increaseBtn_ignored.
  - intros e He d'.
    assert (Hd' : d' = Client.decreaseBtn w d).
    { subst d'. repeat (apply elem_of_cons in He as [->|He]; [reflexivity|]).
      by apply elem_of_nil in He. }
    rewrite Hd'. split.
    + intros Hlt. destruct (decreaseBtn_accepted w d Hlt) as [Hfc Hsent].
      split; [exact Hfc|]. by rewrite Hsent, Hfc.
    + apply decreaseBtn_ignored.
  - intros iw ih d'. subst d'. cbn [Client.handle].
    unfold Client.resize, Client.initFlames, Client.sendTraceData, Client.updateStats.
    cbn [Client.flameCount Client.sent Client.width Client.height Client.flames].
    split; [done|]. split; [done|]. split; [done|]. split; [done|].
    split; [apply length_layout|apply layout_particles].
Qed.

Lemma user_actions_adjust_by_five_witness :
  let d := Client.start Sample.world 1280 720 in
  let d' := Client.handle Sample.world (Client.KeyDown "+") d in
  Client.flameCount d' = 15
  /\ Client.sent d' = [Client.FlameUpdate 15 "increase"].
Proof.
  destruct (user_actions_adjust_by_five Sample.world (Client.start Sample.world 1280 720))
    as (_ & _ & Hinc & _).
  - apply start_in_range.
  - destruct (Hinc (Client.KeyDown "+")) as [Hacc _].
    + apply elem_of_cons. right. apply elem_of_cons. by left.
    + exact (Hacc ltac:(cbn; lia)).
Defined.

(** C8 as stated fails at the lower bound: from ten flames one decrease
    gives five, and the next changes nothing and sends nothing. *)
Lemma decrease_at_five_ignored :
  let d := Client.handle Sample.world Client.ClickDecrease
             (Client.start Sample.world 1280 720) in
  let d' := Client.handle Sample.world Client.ClickDecrease d in
  Client.flameCount d = 5
  /\ Client.flameCount d' - Client.flameCount d = 0
  /\ Client.sent d' = Client.sent d.
Proof. vm_compute. repeat split; reflexivity. Qed.

(** ** More of the server: invariants of whole runs *)

Section RunInvariants.
Context {rt : Runtime} (w : World).

Lemma boot_wired port : wired (registry (boot w port)).
Proof. exact wired_instruments. Qed.

End RunInvariants.

(** X1.  Whatever requests and ticks arrive after start-up, also ones whose
    handler throws, each of the six instruments [server.js] creates is still
    registered under its name and is still of its kind, and the render
    histogram keeps its eight bucket boundaries. *)
Theorem registry_stays_as_wired {rt : Runtime} (w : World) (port : value)
    (evs : list Event) :
  let reg := registry (run w evs (boot w port)).2 in
  (forall name i, instruments !! name = Some i ->
     exists i', reg !! name = Some i' /\ kind_of i' = kind_of i)
  /\ bounds_at reg "embers_render_duration_ms" = buckets.
Proof.
  intros reg.
  assert (Hw : wired reg) by (apply (run_wired w evs (boot w port)), boot_wired).
  split.
  - intros name i Hi.
    assert (Hk : (kind_of <$> reg) !! name = Some (kind_of i)).
    { rewrite Hw, lookup_fmap, Hi. reflexivity. }
    rewrite lookup_fmap in Hk. destruct (reg !! name) as [i'|]; [|done].
    exists i'. split; [reflexivity|]. simpl in Hk. congruence.
  - destruct (wired_histogram reg "embers_render_duration_ms" buckets Hw eq_refl)
      as (h & Hh & Hb).
    unfold bounds_at. by rewrite Hh.
Qed.

#[export] Instance console_grows_refl : Reflexive console_grows.
Proof. intros s. exists []. by rewrite app_nil_r. Qed.

#[export] Instance console_grows_trans : Transitive console_grows.
Proof.
  intros a b c [r1 H1] [r2 H2]. exists (r1 ++ r2). by rewrite H2, H1, app_assoc.
Qed.

(** Walks a handler bind by bind, closing the primitive steps with [prim]. *)
Ltac walk_with prim :=
  repeat first
    [ apply keeps_ret; solve [apply _]
    | apply keeps_bind; [solve [apply _] | | intros ?]
    | apply keeps_for_from; [solve [apply _] | solve [apply _] | intros ?]
    | rewrite for_loop_unroll
    | match goal with |- keeps _ (if ?b then _ else _) => destruct b end
    | progress unfold res_json, logger_info
    | prim ].

Section ConsoleGrows.
Context {rt : Runtime} (w : World).

Lemma Math_random_console : keeps console_grows (Math_random w).
Proof. intros s. exists []. simpl. by rewrite app_nil_r. Qed.

Lemma Date_now_console : keeps console_grows (Date_now w).
Proof. intros s. exists []. simpl. by rewrite app_nil_r. Qed.

Lemma get_startTime_console : keeps console_grows get_startTime.
Proof. intros s. exists []. simpl. by rewrite app_nil_r. Qed.

Lemma logger_log_console lvl msg meta : keeps console_grows (logger_log lvl msg meta).
Proof. intros s. eexists. simpl. reflexivity. Qed.

Lemma instrument_console op : keeps console_grows (instrument op).
Proof.
  apply keeps_instrument; [apply _|]. intros s r _. exists []. simpl.
  by rewrite app_nil_r.
Qed.

Lemma dispatch_console ev s : console_grows s (dispatch w ev s).2.
Proof.
  destruct ev; unfold dispatch; rewrite ?reply_of_state; cbn [snd];
    try reflexivity;
    [unfold api_flames | unfold api_render | unfold api_logs | unfold health
    | unfold uptime_tick];
    walk_with ltac:(first [ apply Math_random_console | apply Date_now_console
                          | apply get_startTime_console | apply logger_log_console
                          | apply instrument_console ]).
Qed.

End ConsoleGrows.

(** X2.  The console is append-only: whatever the events, also the ones whose
    handler throws, every record that was written is still there afterwards,
    in its place. *)
Theorem console_append_only {rt : Runtime} (w : World) (evs : list Event) (s : Server) :
  exists recs, console (run w evs s).2 = console s ++ recs.
Proof.
  revert s. induction evs as [|ev evs IH]; intros s.
  - exists []. simpl. by rewrite app_nil_r.
  - rewrite run_cons. cbn [snd].
    destruct (dispatch_console w ev s) as [r1 H1].
    destruct (IH (dispatch w ev s).2) as [r2 H2].
    exists (r1 ++ r2). by rewrite H2, H1, app_assoc.
Qed.



#[export] Instance gauge_stays_refl name : Reflexive (gauge_stays name).
Proof. intros s Hw. done. Qed.

#[export] Instance gauge_stays_trans name : Transitive (gauge_stays name).
Proof.
  intros a b c H1 H2 Hw. destruct (H1 Hw) as [Hb Eb]. destruct (H2 Hb) as [Hc Ec].
  split; [done|]. intros labels. by rewrite Ec, Eb.
Qed.

#[export] Instance counter_stays_refl name labels : Reflexive (counter_stays name labels).
Proof. intros s Hw. done. Qed.

#[export] Instance counter_stays_trans name labels : Transitive (counter_stays name labels).
Proof.
  intros a b c H1 H2 Hw. destruct (H1 Hw) as [Hb Eb]. destruct (H2 Hb) as [Hc Ec].
  split; [done|]. by rewrite Ec, Eb.
Qed.

Section StaysFacts.
Context {rt : Runtime} (w : World).
Implicit Types (reg : gmap string Instrument) (name : string) (labels : Labels).

Lemma counter_at_add_observation name name' labels' q reg :
  counter_at (add_observation name q reg) name' labels' = counter_at reg name' labels'.
Proof.
  unfold counter_at, add_observation.
  destruct (reg !! name) as [[vals|vals|h]|] eqn:Hi; try done.
  destruct (decide (name = name')) as [->|Hne].
  - by rewrite lookup_insert_eq, Hi.
  - by rewrite lookup_insert_ne.
Qed.

Lemma counter_at_add_labels name labels labels' a reg :
  labels <> labels' ->
  counter_at (add_counter name labels a reg) name labels' = counter_at reg name labels'.
Proof.
  intros Hne. unfold counter_at, add_counter.
  destruct (reg !! name) as [[vals|vals|h]|] eqn:Hi; rewrite ?Hi; try done.
  rewrite lookup_insert_eq. by rewrite lookup_insert_ne.
Qed.

Lemma quiet_gauge_stays name s s' : quiet s s' -> gauge_stays name s s'.
Proof. intros (Hr & _) Hw. by rewrite Hr. Qed.

Lemma quiet_counter_stays name labels s s' : quiet s s' -> counter_stays name labels s s'.
Proof. intros (Hr & _) Hw. by rewrite Hr. Qed.

Lemma setGauge_gauge_stays name0 name labels v :
  name <> name0 -> keeps (gauge_stays name0) (instrument (Emitter.setGauge name labels v)).
Proof.
  intros Hne. apply keeps_instrument; [apply _|]. intros s r Hop Hw. simpl.
  split; [eapply setGauge_wired; eauto|].
  apply setGauge_inr in Hop as (n & _ & ->). intros l. by apply gauge_at_put_ne.
Qed.

Lemma incrementCounter_gauge_stays name0 name labels v :
  keeps (gauge_stays name0) (instrument (Emitter.incrementCounter name labels v)).
Proof.
  apply keeps_instrument; [apply _|]. intros s r Hop Hw. simpl.
  split; [eapply incrementCounter_wired; eauto|].
  apply incrementCounter_inr in Hop as (a & ->). intros l. apply gauge_at_add_counter.
Qed.

Lemma observeHistogram_gauge_stays name0 name v :
  keeps (gauge_stays name0) (instrument (Emitter.observeHistogram name v)).
Proof.
  apply keeps_instrument; [apply _|]. intros s r Hop Hw. simpl.
  split; [eapply observeHistogram_wired; eauto|].
  apply observeHistogram_inr in Hop as (q & ->). intros l. apply gauge_at_add_observation.
Qed.

Lemma setGauge_counter_stays name0 labels0 name labels v :
  keeps (counter_stays name0 labels0) (instrument (Emitter.setGauge name labels v)).
Proof.
  apply keeps_instrument; [apply _|]. intros s r Hop Hw. simpl.
  split; [eapply setGauge_wired; eauto|].
  apply setGauge_inr in Hop as (n & _ & ->). apply counter_at_put_gauge.
Qed.

Lemma incrementCounter_counter_stays name0 labels0 name labels v :
  name <> name0 ->
  keeps (counter_stays name0 labels0) (instrument (Emitter.incrementCounter name labels v)).
Proof.
  intros Hne. apply keeps_instrument; [apply _|]. intros s r Hop Hw. simpl.
  split; [eapply incrementCounter_wired; eauto|].
  apply incrementCounter_inr in Hop as (a & ->). by apply counter_at_add_ne.
Qed.

Lemma observeHistogram_counter_stays name0 labels0 name v :
  keeps (counter_stays name0 labels0) (instrument (Emitter.observeHistogram name v)).
Proof.
  apply keeps_instrument; [apply _|]. intros s r Hop Hw. simpl.
  split; [eapply observeHistogram_wired; eauto|].
  apply observeHistogram_inr in Hop as (q & ->). apply counter_at_add_observation.
Qed.

End StaysFacts.

(** Closes the primitive steps for [gauge_stays] and [counter_stays]. *)
Ltac stays_prim quiet_sub :=
  first
    [ eapply keeps_weaken;
        [apply quiet_sub
        | first [apply Math_random_quiet | apply Date_now_quiet
                | apply logger_log_quiet | apply get_startTime_quiet]]
    | apply setGauge_gauge_stays; discriminate
    | apply incrementCounter_gauge_stays
    | apply observeHistogram_gauge_stays
    | apply setGauge_counter_stays
    | apply incrementCounter_counter_stays; discriminate
    | apply observeHistogram_counter_stays ].

Section UptimeGauge.
Context {rt : Runtime} (w : World).

Lemma dispatch_uptime_stays ev s :
  ev <> Tick -> gauge_stays "embers_uptime_seconds" s (dispatch w ev s).2.
Proof.
  intros Hev.
  destruct ev; unfold dispatch; rewrite ?reply_of_state; cbn [snd];
    try reflexivity; try done;
    unfold api_flames, api_render, api_logs, health;
    walk_with ltac:(stays_prim (quiet_gauge_stays "embers_uptime_seconds")).
Qed.

(** What one tick does on a wired registry. *)
Lemma uptime_tick_run s :
  wired (registry s) ->
  uptime_tick w s =
    (Returned tt,
     {| registry := put_gauge "embers_uptime_seconds" []
                      (Num (inject_Z (clock w (clock_reads s) - startTime s)
                            / inject_Z 1000)) (registry s);
        console := console s;
        rand_calls := rand_calls s;
        clock_reads := S (clock_reads s);
        startTime := startTime s |}).
Proof.
  intros Hw. unfold uptime_tick, mbind, M_bind. simpl.
  erewrite instrument_ok; [reflexivity|]. simpl. by apply setGauge_number.
Qed.

Lemma dispatch_uptime_is_past ev s :
  wired (registry s) -> uptime_is_past w s -> uptime_is_past w (dispatch w ev s).2.
Proof.
  intros Hw Hpast.
  assert (ev = Tick \/ ev <> Tick) as [->|Hev]
    by (destruct ev; first [by left|by right]).
  - unfold dispatch. cbn [snd]. rewrite uptime_tick_run by done. cbn [snd].
    right. exists (clock_reads s). split; [simpl; lia|].
    simpl. by apply gauge_at_put.
  - destruct (dispatch_uptime_stays ev s Hev Hw) as [_ Hg].
    destruct (dispatch_clock w ev s) as [Hc Hs].
    unfold uptime_is_past. rewrite Hg, Hs.
    destruct Hpast as [Hzero|(k & Hk & Hsome)]; [by left|right].
    exists k. split; [lia|done].
Qed.

Lemma run_uptime_is_past evs s :
  wired (registry s) -> uptime_is_past w s -> uptime_is_past w (run w evs s).2.
Proof.
  revert s. induction evs as [|ev evs IH]; intros s Hw Hpast; [done|].
  rewrite run_cons. cbn [snd]. apply IH.
  - by apply dispatch_wired.
  - by apply dispatch_uptime_is_past.
Qed.

End UptimeGauge.

(** X4.  With a clock whose later readings are not earlier instants, at any
    moment after start-up the uptime gauge, once a tick has set it, holds a
    value that is not negative and not above the uptime that [GET /health]
    would report at that moment: the gauge lags, it never runs ahead. *)
Theorem uptime_gauge_lags_health {rt : Runtime} (w : World) (port : value)
    (evs : list Event) (g : Q) :
  clock_monotone w ->
  let s := (run w evs (boot w port)).2 in
  gauge_at (registry s) "embers_uptime_seconds" [] = Some (Num g) ->
  (0 <= g)%Q
  /\ exists u, (dispatch w GetHealth s).1 = health_reply u /\ (g <= u)%Q.
Proof.
  intros Hmono s Hg.
  assert (Hpast : uptime_is_past w s).
  { apply run_uptime_is_past; [apply boot_wired|]. by left. }
  assert (Hstart : startTime s = clock w 0).
  { destruct (run_clock w evs (boot w port)) as [_ Hs]. exact Hs. }
  destruct Hpast as [Hzero|(k & Hk & Hsome)].
  { rewrite Hg in Hzero. injection Hzero as ->. split; [done|].
    eexists. split; [apply health_run|]. rewrite Hstart.
    pose proof (Hmono 0%nat (clock_reads s) ltac:(lia)) as Hle.
    unfold Qle, Qdiv, Qmult, Qinv, inject_Z. cbn -[Z.mul]. lia. }
  rewrite Hg in Hsome. injection Hsome as ->. rewrite Hstart. split.
  - pose proof (Hmono 0%nat k ltac:(lia)) as Hle.
    unfold Qle, Qdiv, Qmult, Qinv, inject_Z. cbn -[Z.mul]. lia.
  - eexists. split; [apply health_run|]. rewrite Hstart.
    apply uptime_le. apply Hmono. lia.
Qed.

Lemma uptime_gauge_lags_health_witness :
  exists g u,
    gauge_at (registry (run (rt := Sample.runtime) Sample.world
                          [Tick; GetHealth; PostLogs {[ "flameCount" := of_Z 3 ]}]
                          Sample.server).2) "embers_uptime_seconds" [] = Some (Num g)
    /\ (dispatch (rt := Sample.runtime) Sample.world GetHealth
          (run (rt := Sample.runtime) Sample.world
             [Tick; GetHealth; PostLogs {[ "flameCount" := of_Z 3 ]}]
             Sample.server).2).1 = health_reply u
    /\ (g <= u)%Q.
Proof.
  exists (500 # 1000).
  assert (Hg : gauge_at (registry (run (rt := Sample.runtime) Sample.world
                          [Tick; GetHealth; PostLogs {[ "flameCount" := of_Z 3 ]}]
                          Sample.server).2) "embers_uptime_seconds" []
               = Some (Num (500 # 1000))) by (vm_compute; reflexivity).
  destruct (uptime_gauge_lags_health (rt := Sample.runtime) Sample.world (of_Z 3000)
              [Tick; GetHealth; PostLogs {[ "flameCount" := of_Z 3 ]}]
              (500 # 1000) sample_clock Hg) as (_ & u & Hu & Hle).
  exists u. split; [exact Hg|]. split; [exact Hu|exact Hle].
Defined.

Section RejectedDelta.
Context {rt : Runtime} (w : World).

Lemma instrument_throws op e s :
  op (registry s) = inl e -> instrument op s = (Threw e, s).
Proof. unfold instrument. intros ->. reflexivity. Qed.

Lemma amount_of_negative q :
  (q < 0)%Q -> Emitter.amount_of (VNum (Num q)) = inl DecreaseError.
Proof.
  intros Hq. unfold Emitter.amount_of.
  destruct (Qle_bool 0 q) eqn:E; [|reflexivity].
  apply Qle_bool_iff in E. lra.
Qed.

(** [/api/flames] with a numeric [count] so low that the sparks delta is
    negative: the state the handler leaves when the counter rejects it. *)
Lemma api_flames_rejected s body c :
  wired (registry s) ->
  field body "count" = VNum (Num c) ->
  let action := field body "action" in
  let u := random w (rand_calls s) in
  let u' := random w (S (rand_calls s)) in
  let r1 := put_gauge "embers_flame_count" [] (Num c) (registry s) in
  let r2 := if JS.truthy action
            then add_counter "embers_button_clicks_total"
                   [("button_type", JS.ToString action)] 1 r1
            else r1 in
  let r3 := put_gauge "embers_temperature_celsius" [] (Num (800 + u * 400)) r2 in
  (inject_Z (Qfloor (u' * 10)) + c < 0)%Q ->
  api_flames w body s =
    (Threw DecreaseError,
     {| registry := r3;
        console := console s ++
          [{| level := VStr "info"; message := VStr "Flame count updated";
              fields := [("flame_count", VNum (Num c)); ("action", action);
                         ("timestamp", VStr (toISOString (clock w (clock_reads s))));
                         ("user_action", VBool true)] |}];
        rand_calls := S (S (rand_calls s));
        clock_reads := S (clock_reads s);
        startTime := startTime s |}).
Proof.
  intros Hw Hc action u u' r1 r2 r3 Hneg.
  assert (Hw1 : wired r1) by (by apply put_gauge_wired).
  assert (Hw2 : wired r2).
  { subst r2. destruct (JS.truthy action); [by apply add_counter_wired|done]. }
  assert (Hw3 : wired r3) by (by apply put_gauge_wired).
  unfold api_flames. rewrite Hc. fold action.
  unfold mbind, M_bind.
  rewrite (instrument_ok _ r1) by (by apply setGauge_number).
  assert (Hclick :
    (if JS.truthy action
     then instrument (Emitter.incrementCounter "embers_button_clicks_total"
                        [("button_type", JS.ToString action)] VUndefined)
     else mret tt) (with_registry r1 s) = (Returned tt, with_registry r2 (with_registry r1 s))).
  { subst r2. destruct (JS.truthy action).
    - apply instrument_ok. by apply incrementCounter_amount.
    - destruct s; reflexivity. }
  rewrite Hclick. simpl.
  rewrite (instrument_ok _ r3) by (by apply setGauge_number).
  simpl.
  rewrite (instrument_throws _ DecreaseError).
  - reflexivity.
  - simpl. destruct (wired_counter r3 "embers_sparks_emitted_total" Hw3 eq_refl)
      as [vals Hi].
    unfold Emitter.incrementCounter. rewrite Hi.
    fold u'. by rewrite amount_of_negative.
Qed.

End RejectedDelta.

(** X5.  A load-change request whose [count] is an integer at or below -10
    fails half-way: the sparks counter rejects the negative delta and the
    request ends in a server error, but by then the flame-count gauge has been
    set to that count, the click counter incremented (for a truthy action),
    the [info] record written and the temperature set; the sparks counter is
    as it was. *)
Theorem flames_negative_count_partial {rt : Runtime} (w : World) (s : Server)
    (body : gmap string value) (L : Z) :
  L <= -10 -> unit_draws w -> wired (registry s) -> field body "count" = of_Z L ->
  let action := field body "action" in
  let label := [("button_type", JS.ToString action)] in
  exists s' : Server,
    dispatch w (PostFlames body) s = (ServerError DecreaseError, s')
    /\ gauge_at (registry s') "embers_flame_count" [] = Some (Num (inject_Z L))
    /\ (JS.truthy action = true ->
          counter_at (registry s') "embers_button_clicks_total" label
          = (counter_at (registry s) "embers_button_clicks_total" label + 1)%Q)
    /\ console s' = console s ++
         [{| level := VStr "info"; message := VStr "Flame count updated";
             fields := [("flame_count", of_Z L); ("action", action);
                        ("timestamp", VStr (toISOString (clock w (clock_reads s))));
                        ("user_action", VBool true)] |}]
    /\ (exists t, gauge_at (registry s') "embers_temperature_celsius" [] = Some (Num t))
    /\ registry s' !! "embers_sparks_emitted_total"
       = registry s !! "embers_sparks_emitted_total".
Proof.
  intros HL Hu Hw Hc action label.
  destruct (Hu (S (rand_calls s))) as [Hu0 Hu1].
  destruct (floor_scaled _ 10 Hu0 Hu1) as (Hf & _ & _).
  change (Qfloor (random w (S (rand_calls s)) * inject_Z 10))
    with (Qfloor (random w (S (rand_calls s)) * 10)) in Hf.
  assert (Hneg : (inject_Z (Qfloor (random w (S (rand_calls s)) * 10)) + inject_Z L < 0)%Q).
  { rewrite <- inject_Z_plus. rewrite <- (Zlt_Qlt _ 0). lia. }
  pose proof (api_flames_rejected w s body (inject_Z L) Hw Hc Hneg) as Hrun.
  cbv zeta in Hrun. fold action in Hrun.
  set (r1 := put_gauge "embers_flame_count" [] (Num (inject_Z L)) (registry s)) in *.
  set (r2 := if JS.truthy action
             then add_counter "embers_button_clicks_total"
                    [("button_type", JS.ToString action)] 1 r1
             else r1) in *.
  assert (Hw1 : wired r1) by (by apply put_gauge_wired).
  assert (Hw2 : wired r2).
  { subst r2. destruct (JS.truthy action); [by apply add_counter_wired|done]. }
  eexists. split; [unfold dispatch; rewrite Hrun; reflexivity|]. cbn [registry console].
  split; [|split; [|split; [reflexivity|split]]].
  - rewrite gauge_at_put_ne by done. subst r2. destruct (JS.truthy action).
    + rewrite gauge_at_add_counter. by apply gauge_at_put.
    + by apply gauge_at_put.
  - intros Ht. rewrite counter_at_put_gauge. subst r2. rewrite Ht.
    rewrite counter_at_add by done. subst r1. by rewrite counter_at_put_gauge.
  - eexists. by apply gauge_at_put.
  - rewrite lookup_put_gauge_ne by done. subst r2. destruct (JS.truthy action).
    + rewrite lookup_add_counter_ne by done. subst r1. by rewrite lookup_put_gauge_ne.
    + subst r1. by rewrite lookup_put_gauge_ne.
Qed.

Lemma flames_negative_count_partial_witness :
  exists s' : Server,
    dispatch (rt := Sample.runtime) Sample.world
      (PostFlames {[ "count" := of_Z (-25); "action" := VStr "decrease" ]}) Sample.server
    = (ServerError DecreaseError, s')
    /\ gauge_at (registry s') "embers_flame_count" [] = Some (Num (inject_Z (-25)))
    /\ length (console s') = 2%nat.
Proof.
  destruct (flames_negative_count_partial (rt := Sample.runtime) Sample.world Sample.server
              {[ "count" := of_Z (-25); "action" := VStr "decrease" ]} (-25))
    as (s' & Hrun & Hfc & _ & Hcon & _).
  - lia.
  - exact sample_draws.
  - exact wired_instruments.
  - reflexivity.
  - exists s'. split; [exact Hrun|]. split; [exact Hfc|]. by rewrite Hcon.
Defined.

Section ClickAccounting.
Context {rt : Runtime} (w : World).

Lemma dispatch_clicks_stay label ev s :
  ~ is_flames ev ->
  counter_stays "embers_button_clicks_total" [("button_type", label)] s (dispatch w ev s).2.
Proof.
  intros Hev.
  destruct ev; unfold dispatch; rewrite ?reply_of_state; cbn [snd];
    try reflexivity; try (by destruct Hev);
    unfold api_render, api_logs, health, uptime_tick;
    walk_with ltac:(stays_prim
      (quiet_counter_stays "embers_button_clicks_total" [("button_type", label)])).
Qed.

Lemma api_flames_clicks label body n s :
  wired (registry s) -> field body "count" = VNum n ->
  wired (registry (api_flames w body s).2)
  /\ counter_at (registry (api_flames w body s).2)
       "embers_button_clicks_total" [("button_type", label)]
     = if counts_click label (PostFlames body)
       then (counter_at (registry s) "embers_button_clicks_total"
               [("button_type", label)] + 1)%Q
       else counter_at (registry s) "embers_button_clicks_total" [("button_type", label)].
Proof.
  intros Hw Hc. set (action := field body "action").
  set (r1 := put_gauge "embers_flame_count" [] n (registry s)).
  set (r2 := if JS.truthy action
             then add_counter "embers_button_clicks_total"
                    [("button_type", JS.ToString action)] 1 r1
             else r1).
  set (s2 := with_registry r2 (with_registry r1 s)).
  assert (Hw1 : wired r1) by (by apply put_gauge_wired).
  assert (Hw2 : wired r2).
  { subst r2. destruct (JS.truthy action); [by apply add_counter_wired|done]. }
  assert (Hclick :
    (if JS.truthy action
     then instrument (Emitter.incrementCounter "embers_button_clicks_total"
                        [("button_type", JS.ToString action)] VUndefined)
     else mret tt) (with_registry r1 s) = (Returned tt, s2)).
  { subst s2 r2. destruct (JS.truthy action).
    - apply instrument_ok. by apply incrementCounter_amount.
    - destruct s; reflexivity. }
  assert (E : exists m : M Response,
             keeps (counter_stays "embers_button_clicks_total" [("button_type", label)]) m
             /\ api_flames w body s = m s2).
  { eexists. split; cycle 1.
    - unfold api_flames. rewrite Hc. fold action.
      unfold mbind at 1. unfold M_bind at 1.
      rewrite (instrument_ok _ r1) by (by apply setGauge_number).
      cbv beta iota. unfold mbind at 1. unfold M_bind at 1.
      rewrite Hclick. cbv beta iota. reflexivity.
    - cbv beta.
      walk_with ltac:(stays_prim
        (quiet_counter_stays "embers_button_clicks_total" [("button_type", label)])). }
  destruct E as (m & K & ->). destruct (K s2 Hw2) as [Hw' Hk'].
  split; [exact Hw'|]. rewrite Hk'. subst s2. cbn [registry with_registry].
  unfold counts_click. fold action. subst r2.
  destruct (JS.truthy action); cbn [andb].
  - destruct (String.eqb_spec (JS.ToString action) label) as [->|Hne].
    + rewrite counter_at_add by done. subst r1. by rewrite counter_at_put_gauge.
    + rewrite counter_at_add_labels by congruence. subst r1.
      by rewrite counter_at_put_gauge.
  - subst r1. by rewrite counter_at_put_gauge.
Qed.

Lemma run_clicks label evs : forall s,
  wired (registry s) -> Forall numeric_count evs ->
  (counter_at (registry (run w evs s).2) "embers_button_clicks_total"
     [("button_type", label)]
   == counter_at (registry s) "embers_button_clicks_total" [("button_type", label)]
      + inject_Z (Z.of_nat
          (sum_list_with (fun ev => if counts_click label ev then 1 else 0)%nat evs)))%Q.
Proof.
  induction evs as [|ev evs IH]; intros s Hw Hevs.
  - simpl. change (inject_Z (Z.of_nat 0)) with 0%Q. lra.
  - apply Forall_cons in Hevs as [Hev Hevs].
    rewrite run_cons. cbn [snd sum_list_with].
    assert (Hstep : wired (registry (dispatch w ev s).2)
       /\ counter_at (registry (dispatch w ev s).2) "embers_button_clicks_total"
            [("button_type", label)]
          = if counts_click label ev
            then (counter_at (registry s) "embers_button_clicks_total"
                    [("button_type", label)] + 1)%Q
            else counter_at (registry s) "embers_button_clicks_total"
                   [("button_type", label)]).
    { destruct ev as [body|body|body| | |];
        [ destruct Hev as [n Hn]; unfold dispatch; rewrite reply_of_state;
          by apply (api_flames_clicks label body n) | .. ];
        (match goal with
         | |- context [dispatch w ?e s] =>
             destruct (dispatch_clicks_stay label e s ltac:(by intros []) Hw)
               as [Hw0 Hc0]
         end; split; [exact Hw0|exact Hc0]). }
    destruct Hstep as [Hw' Hc']. rewrite (IH _ Hw' Hevs), Hc'.
    rewrite Nat2Z.inj_add, inject_Z_plus.
    destruct (counts_click label ev).
    + change (inject_Z (Z.of_nat 1)) with 1%Q. lra.
    + change (inject_Z (Z.of_nat 0)) with 0%Q. lra.
Qed.

End ClickAccounting.

(** X6.  Button clicks are counted once each, by label: after any requests and
    ticks since start-up in which every load-change request carries a number
    as its count, the click counter under [button_type = label] equals the
    number of load-change requests whose action is truthy and renders as
    [label]. *)
Theorem clicks_counted_by_label {rt : Runtime} (w : World) (port : value)
    (evs : list Event) (label : string) :
  Forall numeric_count evs ->
  (counter_at (registry (run w evs (boot w port)).2) "embers_button_clicks_total"
     [("button_type", label)]
   == inject_Z (Z.of_nat
        (sum_list_with (fun ev => if counts_click label ev then 1 else 0)%nat evs)))%Q.
Proof.
  intros Hevs. rewrite (run_clicks w label evs (boot w port) (boot_wired w port) Hevs).
  change (counter_at (registry (boot w port)) "embers_button_clicks_total"
            [("button_type", label)]) with 0%Q.
  lra.
Qed.

Lemma clicks_counted_by_label_witness :
  (counter_at
     (registry
        (run (rt := Sample.runtime) Sample.world
           [PostFlames {[ "count" := of_Z 15; "action" := VStr "increase" ]};
            PostFlames {[ "count" := of_Z 10; "action" := VStr "decrease" ]};
            GetHealth;
            PostFlames {[ "count" := of_Z 15; "action" := VStr "increase" ]};
            PostFlames {[ "count" := of_Z 15 ]}]
           Sample.server).2)
     "embers_button_clicks_total" [("button_type", "increase")] == 2)%Q.
Proof.
  exact (clicks_counted_by_label (rt := Sample.runtime) Sample.world (of_Z 3000)
           [PostFlames {[ "count" := of_Z 15; "action" := VStr "increase" ]};
            PostFlames {[ "count" := of_Z 10; "action" := VStr "decrease" ]};
            GetHealth;
            PostFlames {[ "count" := of_Z 15; "action" := VStr "increase" ]};
            PostFlames {[ "count" := of_Z 15 ]}] "increase"
           ltac:(repeat constructor; simpl; eauto)).
Defined.

(** ** The frame loop of the client *)

Section ForEach.
Import Client Page.

Lemma length_forEach n : forall k ps, (length (forEach n k ps) <= length ps)%nat.
Proof.
  induction n as [|n IH]; intros k ps; cbn [forEach]; [lia|].
  destruct (ps !! k) as [p|] eqn:Hp; [|apply IH].
  destruct (Qle_bool (p_life (advance p)) 0).
  - etransitivity; [apply IH|]. rewrite length_delete by eauto. lia.
  - etransitivity; [apply IH|]. by rewrite length_insert.
Qed.

(** Past the end of the array the rounds do nothing. *)
Lemma forEach_past_end n : forall k ps, (length ps <= k)%nat -> forEach n k ps = ps.
Proof.
  induction n as [|n IH]; intros k ps Hk; cbn [forEach]; [done|].
  rewrite (lookup_ge_None_2 ps k) by lia. apply IH. lia.
Qed.

Lemma advance_paintable p :
  paintable p -> Qle_bool (p_life (advance p)) 0 = false -> paintable (advance p).
Proof.
  intros (Hl0 & Hl1 & Hs0 & Hs1) Hkeep. unfold paintable. simpl.
  assert (Hpos : (0 < p_life p - (1 # 100))%Q).
  { apply Qnot_le_lt. intros Hle. apply Qle_bool_iff in Hle. simpl in Hkeep. congruence. }
  repeat split; lra.
Qed.

Lemma forEach_paintable n : forall k ps,
  Forall paintable ps -> Forall paintable (forEach n k ps).
Proof.
  induction n as [|n IH]; intros k ps Hps; cbn [forEach]; [done|].
  destruct (ps !! k) as [p|] eqn:Hp; [|by apply IH].
  destruct (Qle_bool (p_life (advance p)) 0) eqn:Hdead.
  - apply IH. by apply Forall_delete.
  - apply IH. apply Forall_insert; [done|].
    apply advance_paintable; [|done].
    eapply Forall_lookup_1; eauto.
Qed.

End ForEach.

Section Update.
Context (w : World).
Import Client Page.

Lemma update_length f k :
  (20 <= length (particles (update w f k).1)
   <= Nat.max 39 (length (particles f)))%nat.
Proof.
  unfold update. pose proof (length_forEach (length (particles f)) 0 (particles f)) as Hle.
  destruct (Nat.ltb_spec (length (forEach (length (particles f)) 0 (particles f))) 20);
    cbn [fst particles].
  - rewrite length_app, length_createParticles. lia.
  - lia.
Qed.

Lemma update_all_tidy fs : forall k,
  Forall (fun f => (20 <= length (particles f) <= 39)%nat) fs ->
  Forall (fun f => (20 <= length (particles f) <= 39)%nat) (update_all w fs k).1
  /\ length (update_all w fs k).1 = length fs.
Proof.
  induction fs as [|f fs IH]; intros k Hfs; simpl; [done|].
  apply Forall_cons in Hfs as [Hf Hfs].
  pose proof (update_length f k) as Hl.
  destruct (update w f k) as [f' k'] eqn:Hu. simpl in Hl.
  destruct (IH k' Hfs) as [Hall Hlen].
  destruct (update_all w fs k') as [fs'' k'']. simpl in *.
  split; [|by rewrite Hlen]. constructor; [lia|done].
Qed.

Lemma createParticles_paintable n x y k :
  unit_draws w -> Forall paintable (createParticles w n x y k).
Proof.
  intros Hu. revert k. induction n as [|n IH]; intros k; simpl; constructor; [|apply IH].
  destruct (Hu (k + 2)%nat) as [H0 H1]. unfold paintable. simpl.
  repeat split; lra.
Qed.

Lemma layout_paintable n i spacing h k :
  unit_draws w ->
  Forall (fun f => Forall paintable (particles f)) (layout w n i spacing h k).
Proof.
  intros Hu. revert i k. induction n as [|n IH]; intros i k; cbn [layout]; constructor.
  - cbn [particles]. by apply createParticles_paintable.
  - apply IH.
Qed.

Lemma update_paintable f k :
  unit_draws w -> Forall paintable (particles f) ->
  Forall paintable (particles (update w f k).1).
Proof.
  intros Hu Hf. unfold update.
  pose proof (forEach_paintable (length (particles f)) 0 (particles f) Hf) as Hps.
  destruct (length (forEach (length (particles f)) 0 (particles f)) <? 20)%nat;
    cbn [fst particles].
  - apply Forall_app. split; [done|]. by apply createParticles_paintable.
  - done.
Qed.

Lemma update_all_paintable fs : forall k,
  unit_draws w ->
  Forall (fun f => Forall paintable (particles f)) fs ->
  Forall (fun f => Forall paintable (particles f)) (update_all w fs k).1.
Proof.
  induction fs as [|f fs IH]; intros k Hu Hfs; simpl; [done|].
  apply Forall_cons in Hfs as [Hf Hfs].
  pose proof (update_paintable f k Hu Hf) as Hf'.
  destruct (update w f k) as [f' k'] eqn:Hup. simpl in Hf'.
  pose proof (IH k' Hu Hfs) as Hrest.
  destruct (update_all w fs k') as [fs'' k'']. simpl in *.
  by constructor.
Qed.

End Update.

Section PageSteps.
Context (w : World).
Import Client Page.

(** What a user event does to the flames, the load and the requests: nothing,
    or a fresh layout of as many flames as the load, with at most one
    load-change request carrying the load. *)
Lemma user_step u d :
  Client.handle w u d = d
  \/ exists spacing h k,
       let d' := Client.handle w u d in
       flames d' = layout w (Z.to_nat (flameCount d')) 0 spacing h k
       /\ (sent d' = sent d /\ flameCount d' = flameCount d
           \/ exists action, sent d' = sent d ++ [FlameUpdate (flameCount d') action]).
Proof.
  assert (Hinc : increaseBtn w d = d
    \/ exists spacing h k,
       let d' := increaseBtn w d in
       flames d' = layout w (Z.to_nat (flameCount d')) 0 spacing h k
       /\ (sent d' = sent d /\ flameCount d' = flameCount d
           \/ exists action, sent d' = sent d ++ [FlameUpdate (flameCount d') action])).
  { unfold increaseBtn. destruct (flameCount d <? 500); [right|by left].
    eexists _, _, _. split; [reflexivity|]. right. eexists. reflexivity. }
  assert (Hdec : decreaseBtn w d = d
    \/ exists spacing h k,
       let d' := decreaseBtn w d in
       flames d' = layout w (Z.to_nat (flameCount d')) 0 spacing h k
       /\ (sent d' = sent d /\ flameCount d' = flameCount d
           \/ exists action, sent d' = sent d ++ [FlameUpdate (flameCount d') action])).
  { unfold decreaseBtn. destruct (5 <? flameCount d); [right|by left].
    eexists _, _, _. split; [reflexivity|]. right. eexists. reflexivity. }
  destruct u as [| |key|iw ih]; cbn [Client.handle]; [done|done| |].
  - unfold keydown.
    destruct (String.eqb key "+" || String.eqb key "="); [done|].
    destruct (String.eqb key "-" || String.eqb key "_"); [done|by left].
  - right. eexists _, _, _. split; [reflexivity|]. left. split; reflexivity.
Qed.

(** What one frame does to the driver. *)
Lemma animate_driver now rd p :
  let c' := frameCount p + 1 in
  let L := flameCount (driver p) in
  let p' := animate w now rd p in
  flames (driver p') = (update_all w (flames (driver p)) (draws (driver p))).1
  /\ flameCount (driver p') = L
  /\ sent (driver p') =
       sent (driver p)
       ++ (if rem_is_zero c' 60 then [RenderMetrics rd L] else [])
       ++ (if rem_is_zero c' (120 - Z.min (L * 2) 100) then [GenerateLogs L] else [])
  /\ frameCount p' = c'
  /\ tracesGenerated (driver p') = tracesGenerated (driver p)
  /\ logsGenerated (driver p') = logsGenerated (driver p).
Proof.
  intros c' L p'. subst p'. unfold animate. fold c'.
  destruct (update_all w (flames (driver p)) (draws (driver p))) as [fs k].
  destruct (rem_is_zero c' 60); cbn [sendRenderMetrics send with_flames flameCount];
    fold L; destruct (rem_is_zero c' (120 - Z.min (L * 2) 100));
    cbn; rewrite ?app_nil_r, <- ?app_assoc; auto 10.
Qed.

Lemma play_invariant (I : State -> Prop) evs p :
  (forall e p, I p -> I (handle w e p)) -> I p -> I (play w evs p).
Proof.
  intros Hstep. revert p. induction evs as [|e evs IH]; intros p Hp; [done|].
  simpl. apply IH, Hstep, Hp.
Qed.

Lemma handle_tidy e p :
  in_range (driver p) /\ tidy (driver p) ->
  in_range (driver (handle w e p)) /\ tidy (driver (handle w e p)).
Proof.
  intros [Hr [Hall Hlen]].
  destruct e as [u|now rd| |ok|ok]; cbn [handle on_driver driver].
  - split; [by apply handle_in_range|].
    destruct (user_step u (driver p)) as [-> | (sp & h & k & Hfl & _)]; [done|].
    cbv zeta in Hfl. unfold tidy. rewrite Hfl. split.
    + eapply Forall_impl; [apply layout_particles|]. simpl. intros f ->. lia.
    + apply length_layout.
  - destruct (animate_driver now rd p) as (Hfl & Hfc & _).
    unfold in_range, tidy. rewrite Hfl, Hfc.
    destruct (update_all_tidy w (flames (driver p)) (draws (driver p)) Hall) as [H1 H2].
    split; [exact Hr|]. split; [exact H1|]. by rewrite H2.
  - done.
  - destruct ok; done.
  - destruct ok; done.
Qed.

Lemma start_tidy iw ih now :
  in_range (driver (Page.start w iw ih now)) /\ tidy (driver (Page.start w iw ih now)).
Proof.
  split; [apply start_in_range|]. unfold tidy. cbn [Page.start driver].
  unfold Client.start, initFlames. cbn [updateStats sendTraceData flames flameCount].
  split.
  - eapply Forall_impl; [apply layout_particles|]. simpl. intros f ->. lia.
  - apply length_layout.
Qed.

Lemma handle_paintable e p :
  unit_draws w ->
  Forall (fun f => Forall paintable (particles f)) (flames (driver p)) ->
  Forall (fun f => Forall paintable (particles f)) (flames (driver (handle w e p))).
Proof.
  intros Hu Hall.
  destruct e as [u|now rd| |ok|ok]; cbn [handle on_driver driver].
  - destruct (user_step u (driver p)) as [-> | (sp & h & k & Hfl & _)]; [done|].
    cbv zeta in Hfl. rewrite Hfl. by apply layout_paintable.
  - destruct (animate_driver now rd p) as (Hfl & _). rewrite Hfl.
    by apply update_all_paintable.
  - done.
  - destruct ok; done.
  - destruct ok; done.
Qed.

Lemma last_flame_count_app l r :
  last_flame_count (l ++ [r]) =
    match r with
    | FlameUpdate c _ => Some c
    | _ => last_flame_count l
    end.
Proof.
  induction l as [|x l IH]; simpl.
  - by destruct r.
  - rewrite IH. destruct r; try done.
Qed.

(** The last load-change request sent, if any, carries the load. *)
Lemma handle_last_sent e p :
  (last_flame_count (sent (driver p)) = None
   \/ last_flame_count (sent (driver p)) = Some (flameCount (driver p))) ->
  last_flame_count (sent (driver (handle w e p))) = None
  \/ last_flame_count (sent (driver (handle w e p)))
     = Some (flameCount (driver (handle w e p))).
Proof.
  intros Hp.
  destruct e as [u|now rd| |ok|ok]; cbn [handle on_driver driver].
  - destruct (user_step u (driver p))
      as [-> | (sp & h & k & _ & [[-> ->] | [a ->]])]; [done|done|].
    right. by rewrite last_flame_count_app.
  - destruct (animate_driver now rd p) as (_ & -> & -> & _).
    rewrite app_assoc.
    destruct (rem_is_zero _ (120 - _)); destruct (rem_is_zero _ 60);
      rewrite ?app_nil_r, ?last_flame_count_app; done.
  - right. cbn [sendFlameUpdate sent flameCount]. by rewrite last_flame_count_app.
  - destruct ok; done.
  - destruct ok; done.
Qed.

End PageSteps.

(** X7.  Whatever the user does and however many frames pass, the page keeps
    its load on the grid of fives within 5 and 500, draws exactly one flame
    per unit of load, and every flame holds at least 20 and at most 39
    particles. *)
Theorem flames_stay_tidy (w : World) (innerWidth innerHeight : Q) (now : Z)
    (evs : list Page.Input) :
  let d := Page.driver (Page.play w evs (Page.start w innerWidth innerHeight now)) in
  Client.in_range d /\ Page.tidy d.
Proof.
  cbv zeta.
  apply (play_invariant w
           (fun p => Client.in_range (Page.driver p) /\ Page.tidy (Page.driver p))).
  - intros e p. apply handle_tidy.
  - apply start_tidy.
Qed.

(** X8.  With draws in [0, 1), every particle the page holds, at any moment,
    can be painted: its life (the alpha it is drawn with) is above 0 and at
    most 1, and its size (the radius of its gradient) is above 0 and at most
    10. *)
Theorem particles_stay_paintable (w : World) (innerWidth innerHeight : Q) (now : Z)
    (evs : list Page.Input) :
  unit_draws w ->
  Forall (fun f => Forall Page.paintable (Client.particles f))
    (Client.flames
       (Page.driver (Page.play w evs (Page.start w innerWidth innerHeight now)))).
Proof.
  intros Hu.
  apply (play_invariant w
           (fun p => Forall (fun f => Forall Page.paintable (Client.particles f))
                       (Client.flames (Page.driver p)))).
  - intros e p. by apply handle_paintable.
  - cbn [Page.start Page.driver]. unfold Client.start, Client.initFlames.
    cbn [Client.updateStats Client.sendTraceData Client.flames].
    by apply layout_paintable.
Qed.

Lemma particles_stay_paintable_witness :
  Forall (fun f => Forall Page.paintable (Client.particles f))
    (Client.flames
       (Page.driver
          (Page.play Sample.world
             [Page.Frame 16 (1 # 2); Page.User Client.ClickDecrease; Page.Frame 33 (1 # 2)]
             (Page.start Sample.world 800 600 0)))).
Proof. apply (particles_stay_paintable Sample.world 800 600 0). exact sample_draws. Defined.

Section Splice.
Import Client Page.

Lemma length_odds {A : Type} (l : list A) : length (odds l) = Nat.div2 (length l).
Proof.
  assert (H : forall n (l : list A), (length l <= n)%nat ->
                length (odds l) = Nat.div2 (length l)).
  { intros n. induction n as [|n IH]; intros [|x [|y l']] Hl; simpl in *;
      try reflexivity; try lia.
    f_equal. apply IH. lia. }
  by apply (H (length l)).
Qed.

Lemma Forall_odds {A : Type} (P : A -> Prop) (l : list A) :
  Forall P l -> Forall P (odds l).
Proof.
  assert (H : forall n (l : list A), (length l <= n)%nat ->
                Forall P l -> Forall P (odds l)).
  { intros n. induction n as [|n IH]; intros [|a [|b l']] Hl Hall;
      cbn [odds length] in *; try constructor; try lia.
    - apply Forall_cons in Hall as [_ Hall]. by apply Forall_cons in Hall as [? _].
    - apply IH; [lia|]. apply Forall_cons in Hall as [_ Hall].
      by apply Forall_cons in Hall as [_ ?]. }
  by apply (H (length l)).
Qed.

(** When every particle from index [length kept] on is about to expire, each
    removal moves the next particle under the index just visited: every
    second one is passed over, as it was. *)
Lemma forEach_all_expire n : forall kept rest,
  Forall (fun p => (p_life p <= 1 # 100)%Q) rest ->
  (length rest <= 2 * n)%nat ->
  forEach n (length kept) (kept ++ rest) = kept ++ odds rest.
Proof.
  induction n as [|n IH]; intros kept rest Hrest Hlen.
  - destruct rest; [|simpl in Hlen; lia]. reflexivity.
  - cbn [forEach]. destruct rest as [|x [|y rest]].
    + rewrite app_nil_r, lookup_ge_None_2 by lia.
      rewrite forEach_past_end by lia. by rewrite app_nil_r.
    + rewrite list_lookup_middle by done.
      apply Forall_cons in Hrest as [Hx _].
      assert (Hdead : Qle_bool (p_life (advance x)) 0 = true).
      { apply Qle_bool_iff. simpl. lra. }
      rewrite Hdead, delete_middle, app_nil_r.
      rewrite forEach_past_end by lia. by rewrite app_nil_r.
    + rewrite list_lookup_middle by done.
      apply Forall_cons in Hrest as [Hx Hrest].
      apply Forall_cons in Hrest as [_ Hrest].
      assert (Hdead : Qle_bool (p_life (advance x)) 0 = true).
      { apply Qle_bool_iff. simpl. lra. }
      rewrite Hdead, delete_middle.
      replace (S (length kept)) with (length (kept ++ [y]))
        by (rewrite length_app; simpl; lia).
      rewrite (cons_middle y kept rest), app_assoc.
      rewrite IH; [|done|simpl in Hlen; lia].
      by rewrite <- app_assoc.
Qed.

(** When every particle from index [length kept] on stays alive, each is
    advanced in place. *)
Lemma forEach_all_alive n : forall kept rest,
  Forall (fun p => (1 # 100 < p_life p)%Q) rest ->
  (length rest <= n)%nat ->
  forEach n (length kept) (kept ++ rest) = kept ++ (advance <$> rest).
Proof.
  induction n as [|n IH]; intros kept rest Hrest Hlen.
  - destruct rest; [|simpl in Hlen; lia]. reflexivity.
  - cbn [forEach]. destruct rest as [|x rest].
    + rewrite app_nil_r, lookup_ge_None_2 by lia.
      rewrite forEach_past_end by lia. by rewrite app_nil_r.
    + rewrite list_lookup_middle by done.
      apply Forall_cons in Hrest as [Hx Hrest].
      assert (Halive : Qle_bool (p_life (advance x)) 0 = false).
      { destruct (Qle_bool (p_life (advance x)) 0) eqn:E; [|done].
        apply Qle_bool_iff in E. simpl in E. lra. }
      rewrite Halive, insert_app_r_alt, Nat.sub_diag by lia. cbn [insert list_insert].
      replace (S (length kept)) with (length (kept ++ [advance x]))
        by (rewrite length_app; simpl; lia).
      rewrite (cons_middle (advance x) kept rest), app_assoc.
      rewrite IH; [|done|simpl in Hlen; lia].
      by rewrite <- app_assoc.
Qed.

End Splice.

Section Generation.
Context (w : World).
Import Client Page.

Lemma update_all_expire f k :
  Forall (fun p => (p_life p <= 1 # 100)%Q) (particles f) ->
  (length (particles f) < 40)%nat ->
  update w f k =
    ({| baseX := baseX f; baseY := baseY f;
        particles := odds (particles f)
                     ++ createParticles w 20 (baseX f) (baseY f) k |},
     (k + 80)%nat).
Proof.
  intros Hdead Hlen. unfold update.
  pose proof (forEach_all_expire (length (particles f)) [] (particles f) Hdead
                ltac:(lia)) as E.
  cbn [app length] in E. rewrite E, length_odds.
  assert (Hhalf : (Nat.div2 (length (particles f)) < 20)%nat).
  { pose proof (Nat.div2_odd (length (particles f))).
    destruct (Nat.odd (length (particles f))); simpl in *; lia. }
  by destruct (Nat.ltb_spec (Nat.div2 (length (particles f))) 20); [|lia].
Qed.

Lemma update_all_alive f k :
  Forall (fun p => (1 # 100 < p_life p)%Q) (particles f) ->
  (20 <= length (particles f))%nat ->
  update w f k =
    ({| baseX := baseX f; baseY := baseY f; particles := advance <$> particles f |}, k).
Proof.
  intros Halive Hlen. unfold update.
  pose proof (forEach_all_alive (length (particles f)) [] (particles f) Halive
                ltac:(lia)) as E.
  cbn [app length] in E. rewrite E, length_fmap.
  by destruct (Nat.ltb_spec (length (particles f)) 20); [lia|].
Qed.

Lemma createParticles_life n x y k :
  Forall (fun p => (p_life p == 1)%Q) (createParticles w n x y k).
Proof.
  revert k. induction n as [|n IH]; intros k; simpl; constructor; [reflexivity|apply IH].
Qed.

Lemma updates_aged n : forall m f k,
  aged m f -> (m + n <= 99)%nat ->
  aged (m + n) (updates w n f k).1 /\ (updates w n f k).2 = k.
Proof.
  induction n as [|n IH]; intros m f k [Hlen Hlife] Hmn; cbn [updates].
  - rewrite Nat.add_0_r. done.
  - rewrite update_all_alive; [| |lia].
    + replace (m + S n)%nat with (S m + n)%nat by lia. apply IH; [|lia].
      split; cbn [particles]; [by rewrite length_fmap|].
      apply Forall_fmap. eapply Forall_impl; [exact Hlife|].
      intros p Hp. simpl. rewrite Hp.
      rewrite Nat2Z.inj_succ. unfold Z.succ. rewrite inject_Z_plus. simpl. ring.
    + eapply Forall_impl; [exact Hlife|]. intros p Hp. simpl in Hp. rewrite Hp.
      assert (Hm : (inject_Z (Z.of_nat m) <= 98)%Q).
      { unfold Qle, inject_Z. simpl. lia. }
      lra.
Qed.

Lemma updates_add n m f k :
  updates w (n + m) f k = updates w m (updates w n f k).1 (updates w n f k).2.
Proof.
  revert f k. induction n as [|n IH]; intros f k; cbn [updates Nat.add]; [done|].
  destruct (update w f k) as [f' k']. apply IH.
Qed.

Lemma updates_1 f k : updates w 1 f k = update w f k.
Proof. cbn [updates]. by destruct (update w f k). Qed.

End Generation.

(** X9.  Removing a particle inside the [forEach] makes the loop pass over
    the next one.  When every particle of a flame is about to expire (life at
    most 0.01), [update()] removes only the first, third, fifth, ... of them;
    the second, fourth, ... stay exactly as they were, life, position and
    size untouched, and (the flame having fewer than 40) twenty new particles
    are added behind them from eighty draws. *)
Theorem expiring_particles_skip_neighbours (w : World) (f : Client.Flame) (k : nat) :
  Forall (fun p => (Client.p_life p <= 1 # 100)%Q) (Client.particles f) ->
  (length (Client.particles f) < 40)%nat ->
  Client.particles (Page.update w f k).1
    = Page.odds (Client.particles f)
      ++ Client.createParticles w 20 (Client.baseX f) (Client.baseY f) k
  /\ (Page.update w f k).2 = (k + 80)%nat.
Proof.
  intros Hdead Hlen. by rewrite update_all_expire.
Qed.

Lemma expiring_particles_skip_neighbours_witness :
  let p (i : Z) :=
    {| Client.p_x := inject_Z i; Client.p_y := 0; Client.p_vx := 1; Client.p_vy := -2;
       Client.p_life := 1 # 100; Client.p_size := 3; Client.p_hue := 30 |} in
  let f := {| Client.baseX := 100; Client.baseY := 400;
              Client.particles := [p 1; p 2; p 3; p 4; p 5] |} in
  Client.particles (Page.update Sample.world f 0).1
    = [p 2; p 4] ++ Client.createParticles Sample.world 20 100 400 0
  /\ (Page.update Sample.world f 0).2 = 80%nat.
Proof.
  cbv zeta.
  refine (expiring_particles_skip_neighbours Sample.world _ 0 _ _).
  - repeat constructor; simpl; unfold Qle; simpl; lia.
  - simpl. lia.
Defined.

(** X10.  A flame's first generation lasts 100 frames.  For each of the first
    99 calls of [update()] a new flame keeps its 20 particles and makes no
    draw; the 100th call finds all 20 expiring, removes every second one, and
    refills: the flame then holds 30 particles, the first 10 of them left over
    from the first generation with a life of 0.01. *)
Theorem first_generation_lasts_100_frames (w : World) (x y : Q) (k k0 : nat) :
  let f0 := {| Client.baseX := x; Client.baseY := y;
               Client.particles := Client.createParticles w 20 x y k |} in
  Forall (fun n => length (Client.particles (Page.updates w n f0 k0).1) = 20%nat
                   /\ (Page.updates w n f0 k0).2 = k0) (seq 0 100)
  /\ length (Client.particles (Page.updates w 100 f0 k0).1) = 30%nat
  /\ (Page.updates w 100 f0 k0).2 = (k0 + 80)%nat
  /\ Forall (fun p => (Client.p_life p == 1 # 100)%Q)
       (take 10 (Client.particles (Page.updates w 100 f0 k0).1)).
Proof.
  intros f0.
  assert (H0 : Page.aged 0 f0).
  { split; [apply length_createParticles|]. cbn [Client.particles f0].
    eapply Forall_impl; [apply createParticles_life|]. intros p ->. reflexivity. }
  split.
  - apply Forall_forall. intros n Hn. apply elem_of_seq in Hn.
    destruct (updates_aged w n 0 f0 k0 H0 ltac:(lia)) as [[Hlen _] Hk]. done.
  - destruct (updates_aged w 99 0 f0 k0 H0 ltac:(lia)) as [[Hlen Hlife] Hk].
    change 100%nat with (99 + 1)%nat. rewrite updates_add, updates_1, Hk. remember (Page.updates w 99 f0 k0).1 as f99 eqn:E. clear E.
    assert (Hold : Forall (fun p => (Client.p_life p == 1 # 100)%Q) (Client.particles f99)).
    { eapply Forall_impl; [exact Hlife|]. intros p Hp. simpl in Hp. rewrite Hp. reflexivity. }
    rewrite update_all_expire; [| |lia].
    + cbn [fst snd Client.particles].
      assert (Hodds : length (Page.odds (Client.particles f99)) = 10%nat)
        by (by rewrite length_odds, Hlen).
      split; [by rewrite length_app, Hodds, length_createParticles|].
      split; [done|].
      rewrite take_app_le, take_ge by lia.
      by apply Forall_odds.
    + eapply Forall_impl; [exact Hold|]. intros p Hp. simpl in Hp. rewrite Hp. lra.
Qed.

Section Cadence.
Context (w : World).
Import Client Page.

Lemma count_app f l l' : count f (l ++ l') = count f l + count f l'.
Proof. unfold count. rewrite List.filter_app, length_app. lia. Qed.

(** Counting the multiples of [m] one step at a time. *)
Lemma div_step c m :
  0 <= c -> 0 < m ->
  (c + 1) / m = c / m + (if rem_is_zero (c + 1) m then 1 else 0).
Proof.
  intros Hc Hm. unfold rem_is_zero.
  destruct (Z.eqb_spec m 0); [lia|].
  rewrite Z.rem_mod_nonneg by lia.
  destruct (Z.eqb_spec ((c + 1) mod m) 0) as [E|E].
  - apply Z.mod_divide in E; [|lia]. destruct E as [q Hq].
    rewrite Hq, Z.div_mul by lia.
    assert (c = (q - 1) * m + (m - 1)) as -> by lia.
    rewrite Z.div_add_l by lia. rewrite Z.div_small by lia. lia.
  - pose proof (Z.div_mod (c + 1) m ltac:(lia)) as Hdm.
    pose proof (Z.mod_pos_bound (c + 1) m Hm) as Hb.
    rewrite Z.add_0_r.
    apply (Z.div_unique_pos c m ((c + 1) / m) ((c + 1) mod m - 1)); lia.
Qed.

Lemma frames_counts (fr : list (Z * Q)) : forall p,
  0 <= frameCount p ->
  let L := flameCount (driver p) in
  let m := 120 - Z.min (L * 2) 100 in
  let c := frameCount p in
  let n := Z.of_nat (length fr) in
  let p' := play w ((fun x => Frame x.1 x.2) <$> fr) p in
  flameCount (driver p') = L
  /\ frameCount p' = c + n
  /\ count is_render (sent (driver p'))
     = count is_render (sent (driver p)) + ((c + n) / 60 - c / 60)
  /\ count is_logs (sent (driver p'))
     = count is_logs (sent (driver p)) + ((c + n) / m - c / m)
  /\ count is_flame_update (sent (driver p'))
     = count is_flame_update (sent (driver p))
  /\ tracesGenerated (driver p') = tracesGenerated (driver p)
  /\ logsGenerated (driver p') = logsGenerated (driver p).
Proof.
  induction fr as [|[now rd] fr IH]; intros p Hc; cbv zeta.
  - cbn [fmap list_fmap play foldl length Z.of_nat].
    rewrite !Z.add_0_r, !Z.sub_diag, !Z.add_0_r. auto 10.
  - cbn [fmap list_fmap play foldl fst snd handle].
    destruct (animate_driver w now rd p) as (_ & HL & Hs & Hfc & Ht & Hl).
    cbv zeta in HL, Hs, Hfc.
    set (p1 := animate w now rd p) in *.
    destruct (IH p1 ltac:(lia)) as (IL & Ifc & Ir & Ig & Iu & It & Il).
    fold (play w ((fun x => Frame x.1 x.2) <$> fr) p1) in *.
    rewrite HL in IL, Ig. rewrite Hfc in Ifc, Ir, Ig.
    rewrite It, Il, IL, Ifc, Ir, Ig, Iu, Hs, Ht, Hl.
    rewrite !count_app.
    set (L := flameCount (driver p)) in *.
    set (m := 120 - Z.min (L * 2) 100) in *.
    assert (Hm : 0 < m) by (unfold m; lia).
    rewrite (div_step (frameCount p) 60) in * by lia.
    rewrite (div_step (frameCount p) m) in * by lia.
    replace (Z.of_nat (length ((now, rd) :: fr))) with (1 + Z.of_nat (length fr))
      by (cbn [length]; lia).
    rewrite !Z.add_assoc.
    destruct (rem_is_zero (frameCount p + 1) 60);
      destruct (rem_is_zero (frameCount p + 1) m);
      unfold count; cbn [List.filter is_render is_logs is_flame_update length app];
      repeat split; lia.
Qed.

End Cadence.

(** X11.  The frame loop sends on a fixed cadence.  Over any run of frames
    with no other event in between, starting at frame count [c] with load
    [L], the page sends one render report for every multiple of 60 and one
    log request for every multiple of [120 - min(2 L, 100)] (a period of at
    least 20 frames) that the frame count passes, and nothing else: no
    load-change request, no change of the load or of either counter. *)
Theorem frames_send_on_cadence (w : World) (frames : list (Z * Q)) (p : Page.State) :
  0 <= Page.frameCount p ->
  let L := Client.flameCount (Page.driver p) in
  let m := 120 - Z.min (L * 2) 100 in
  let c := Page.frameCount p in
  let n := Z.of_nat (length frames) in
  let p' := Page.play w ((fun x => Page.Frame x.1 x.2) <$> frames) p in
  20 <= m
  /\ Client.flameCount (Page.driver p') = L
  /\ Page.frameCount p' = c + n
  /\ Page.count Page.is_render (Client.sent (Page.driver p'))
     = Page.count Page.is_render (Client.sent (Page.driver p)) + ((c + n) / 60 - c / 60)
  /\ Page.count Page.is_logs (Client.sent (Page.driver p'))
     = Page.count Page.is_logs (Client.sent (Page.driver p)) + ((c + n) / m - c / m)
  /\ Page.count Page.is_flame_update (Client.sent (Page.driver p'))
     = Page.count Page.is_flame_update (Client.sent (Page.driver p))
  /\ Client.tracesGenerated (Page.driver p') = Client.tracesGenerated (Page.driver p)
  /\ Client.logsGenerated (Page.driver p') = Client.logsGenerated (Page.driver p).
Proof.
  intros Hc L m c n p'. split; [unfold m; lia|].
  exact (frames_counts w frames p Hc).
Qed.

Lemma frames_send_on_cadence_witness :
  let p := Page.start Sample.world 800 600 0 in
  let p' := Page.play Sample.world
              ((fun x => Page.Frame x.1 x.2) <$> repeat (16, 1 # 2) 200) p in
  20 <= 120 - Z.min (10 * 2) 100
  /\ Client.flameCount (Page.driver p') = 10
  /\ Page.frameCount p' = 200
  /\ Page.count Page.is_render (Client.sent (Page.driver p')) = 3
  /\ Page.count Page.is_logs (Client.sent (Page.driver p')) = 2
  /\ Page.count Page.is_flame_update (Client.sent (Page.driver p')) = 0
  /\ Client.tracesGenerated (Page.driver p') = 10
  /\ Client.logsGenerated (Page.driver p') = 0.
Proof.
  exact (frames_send_on_cadence Sample.world (repeat (16, 1 # 2) 200)
           (Page.start Sample.world 800 600 0) ltac:(simpl; lia)).
Defined.

(** ** The page and the server together *)

Section Delivery.
Context {rt : Runtime} (w : World).
Import Client Page.

Lemma dispatch_post_flames c a s :
  (dispatch w (post (FlameUpdate c a)) s).2
  = (api_flames w (body_of (FlameUpdate c a)) s).2.
Proof. cbn [post]. unfold dispatch. by rewrite reply_of_state. Qed.

(** Delivering the requests in the order they were sent leaves the
    flame-count gauge at the count of the last load-change request. *)
Lemma deliver_gauge reqs : forall s,
  wired (registry s) ->
  wired (registry (run w (post <$> reqs) s).2)
  /\ gauge_at (registry (run w (post <$> reqs) s).2) "embers_flame_count" []
     = match last_flame_count reqs with
       | Some c => Some (Num (inject_Z c))
       | None => gauge_at (registry s) "embers_flame_count" []
       end.
Proof.
  induction reqs as [|r reqs IH]; intros s Hw; [done|].
  cbn [fmap list_fmap last_flame_count]. rewrite run_cons. cbn [snd].
  fold (fmap (M := list) post reqs).
  set (s1 := (dispatch w (post r) s).2).
  assert (Hw1 : wired (registry s1)) by (by apply (dispatch_wired w (post r) s)).
  destruct (IH s1 Hw1) as [Hw2 Hg]. split; [exact Hw2|].
  rewrite Hg. destruct (last_flame_count reqs) as [c|]; [done|].
  destruct r as [c a|d c|c].
  - subst s1. rewrite dispatch_post_flames.
    by apply (api_flames_sets_gauge w _ (Num (inject_Z c)) s Hw).
  - by apply (dispatch_flame_gauge w (post (RenderMetrics d c)) s); [intros []|].
  - by apply (dispatch_flame_gauge w (post (GenerateLogs c)) s); [intros []|].
Qed.

Lemma Qred_inject_Z z : Qred (inject_Z z) = inject_Z z.
Proof.
  unfold Qred, inject_Z.
  pose proof (Z.ggcd_gcd z 1) as Hg. pose proof (Z.ggcd_correct_divisors z 1) as Hd.
  destruct (Z.ggcd z 1) as [g [aa bb]]. cbn [fst snd] in *.
  rewrite Z.gcd_1_r in Hg. subst g. destruct Hd as [Ha Hb].
  assert (aa = z) as -> by lia. assert (bb = 1) as -> by lia. reflexivity.
Qed.

Lemma counter_plus_integer n z :
  counter_plus n (if JS.truthy (of_Z z) then of_Z z else of_Z 0) = Some (n + z).
Proof.
  unfold of_Z, JS.truthy.
  destruct (Qeq_bool (inject_Z z) 0) eqn:E; cbn [negb counter_plus].
  - apply Qeq_bool_eq in E. unfold Qeq in E. simpl in E.
    rewrite Qred_inject_Z. simpl. f_equal. lia.
  - rewrite Qred_inject_Z. simpl. reflexivity.
Qed.

Lemma ceil_of_Z (z : Z) (k : positive) :
  JS.ceil (JS.div_lit (JS.ToNumber (of_Z z)) k)
  = Num (inject_Z (Qceiling (inject_Z z / inject_Z (Zpos k)))).
Proof. reflexivity. Qed.

Lemma ceil_div_nonneg_Z (z : Z) (k : positive) :
  0 <= z -> 0 <= Qceiling (inject_Z z / inject_Z (Zpos k)).
Proof.
  intros Hz. change 0 with (Qceiling 0). apply Qceiling_resp_le.
  apply Qle_shift_div_l; [reflexivity|]. rewrite Qmult_0_l.
  unfold Qle. simpl. lia.
Qed.

End Delivery.

(** X12.  The page and the server agree on the load.  Once the page has sent
    a load-change request, whatever the user did and however many frames
    passed, a server that receives the page's requests in the order they
    were sent shows the page's current load in its flame-count gauge. *)
Theorem gauge_follows_page {rt : Runtime} (wc ws : World) (port : value)
    (innerWidth innerHeight : Q) (now : Z) (evs : list Page.Input) :
  let d := Page.driver (Page.play wc evs (Page.start wc innerWidth innerHeight now)) in
  is_Some (Page.last_flame_count (Client.sent d)) ->
  gauge_at (registry (run ws (Page.post <$> Client.sent d) (boot ws port)).2)
    "embers_flame_count" []
  = Some (Num (inject_Z (Client.flameCount d))).
Proof.
  intros d [c Hc].
  assert (Hinv : Page.last_flame_count (Client.sent d) = None
                 \/ Page.last_flame_count (Client.sent d) = Some (Client.flameCount d)).
  { apply (play_invariant wc
             (fun p => Page.last_flame_count (Client.sent (Page.driver p)) = None
                       \/ Page.last_flame_count (Client.sent (Page.driver p))
                          = Some (Client.flameCount (Page.driver p)))).
    - intros e p. apply handle_last_sent.
    - by left. }
  destruct Hinv as [Hn|Hs]; [congruence|].
  destruct (deliver_gauge ws (Client.sent d) (boot ws port) (boot_wired ws port))
    as [_ Hg].
  by rewrite Hg, Hs.
Qed.

Lemma gauge_follows_page_witness :
  let d := Page.driver
             (Page.play Sample.world
                [Page.Frame 16 (1 # 2); Page.InitialTimeout;
                 Page.User (Client.KeyDown "+"); Page.User Client.ClickIncrease;
                 Page.Frame 33 (1 # 2)]
                (Page.start Sample.world 800 600 0)) in
  is_Some (Page.last_flame_count (Client.sent d))
  /\ gauge_at
       (registry (run (rt := Sample.runtime) Sample.world (Page.post <$> Client.sent d)
                    (boot (rt := Sample.runtime) Sample.world (of_Z 3000))).2)
       "embers_flame_count" []
     = Some (Num 20).
Proof.
  cbv zeta.
  assert (H : is_Some
    (Page.last_flame_count
       (Client.sent
          (Page.driver
             (Page.play Sample.world
                [Page.Frame 16 (1 # 2); Page.InitialTimeout;
                 Page.User (Client.KeyDown "+"); Page.User Client.ClickIncrease;
                 Page.Frame 33 (1 # 2)]
                (Page.start Sample.world 800 600 0)))))).
  { exists 20. vm_compute. reflexivity. }
  split; [exact H|].
  exact (gauge_follows_page (rt := Sample.runtime) Sample.world Sample.world (of_Z 3000)
           800 600 0 _ H).
Defined.

(** X13.  The log counter of the page counts what the server wrote.  For a
    page whose load is not negative, the server answers the page's log
    request with status 200 and writes exactly ceil(load / 3) records, and
    the page's continuation, given that reply, adds exactly that number to
    its counter and shows it. *)
Theorem logs_round_trip {rt : Runtime} (w : World) (s : Server) (d : Client.Driver) :
  0 <= Client.flameCount d ->
  exists (resp : Response) (recs : list LogRecord) (s' : Server) (d' : Client.Driver),
    api_logs w (Page.body_of (Client.GenerateLogs (Client.flameCount d))) s
      = (Returned resp, s')
    /\ status resp = 200%nat
    /\ console s' = console s ++ recs
    /\ Z.of_nat (length recs) = Qceiling (inject_Z (Client.flameCount d) / inject_Z 3)
    /\ Page.generateLogs_done true (Page.reply_field resp "logsGenerated") d = Some d'
    /\ Client.logsGenerated d' = Client.logsGenerated d + Z.of_nat (length recs)
    /\ snd (Client.shownStats d') = Client.logsGenerated d'.
Proof.
  intros HL.
  pose proof (api_logs_run w s (Page.body_of (Client.GenerateLogs (Client.flameCount d))))
    as Hrun.
  cbv zeta in Hrun.
  assert (Hf : field (Page.body_of (Client.GenerateLogs (Client.flameCount d))) "flameCount"
               = of_Z (Client.flameCount d)) by reflexivity.
  rewrite Hf, ceil_of_Z in Hrun.
  set (n := Qceiling (inject_Z (Client.flameCount d) / inject_Z 3)) in *.
  assert (Hn : 0 <= n) by (by apply ceil_div_nonneg_Z).
  eexists _, _, _, _. split; [exact Hrun|]. split; [reflexivity|].
  split; [reflexivity|].
  rewrite length_fmap, length_seq. cbn [JS.trip_count].
  rewrite Qceiling_Z, Z2Nat.id by lia.
  split; [reflexivity|].
  assert (Hr : Page.reply_field
                 {| status := 200;
                    payload := [("success", VBool true);
                                ("logsGenerated", VNum (Num (inject_Z n)))] |}
                 "logsGenerated" = of_Z n) by reflexivity.
  rewrite Hr. unfold Page.generateLogs_done. rewrite counter_plus_integer.
  split; [reflexivity|]. split; reflexivity.
Qed.

Lemma logs_round_trip_witness :
  exists (resp : Response) (recs : list LogRecord) (s' : Server) (d' : Client.Driver),
    api_logs (rt := Sample.runtime) Sample.world
        (Page.body_of (Client.GenerateLogs 10)) Sample.server
      = (Returned resp, s')
    /\ status resp = 200%nat
    /\ console s' = console Sample.server ++ recs
    /\ Z.of_nat (length recs) = Qceiling (inject_Z 10 / inject_Z 3)
    /\ Page.generateLogs_done true (Page.reply_field resp "logsGenerated")
         (Client.start Sample.world 800 600) = Some d'
    /\ Client.logsGenerated d' = 0 + Z.of_nat (length recs)
    /\ snd (Client.shownStats d') = Client.logsGenerated d'.
Proof.
  exact (logs_round_trip (rt := Sample.runtime) Sample.world Sample.server
           (Client.start Sample.world 800 600) ltac:(simpl; lia)).
Defined.

(** X14.  A render report round trip.  For a page whose load is not negative
    and a registry as wired at start-up, the server records the reported
    duration in the render histogram, writes exactly ceil(load / 5) records
    and answers with status 200; the page's continuation, run at the same
    load, adds exactly that number of records to its log counter. *)
Theorem render_round_trip {rt : Runtime} (w : World) (s : Server) (d : Client.Driver)
    (duration : Q) :
  wired (registry s) -> 0 <= Client.flameCount d ->
  exists (resp : Response) (recs : list LogRecord) (s' : Server),
    api_render w (Page.body_of (Client.RenderMetrics duration (Client.flameCount d))) s
      = (Returned resp, s')
    /\ status resp = 200%nat
    /\ observed_at (registry s') "embers_render_duration_ms"
       = duration :: observed_at (registry s) "embers_render_duration_ms"
    /\ console s' = console s ++ recs
    /\ Z.of_nat (length recs) = Qceiling (inject_Z (Client.flameCount d) / inject_Z 5)
    /\ Client.logsGenerated (Page.renderMetrics_done true d)
       = Client.logsGenerated d + Z.of_nat (length recs).
Proof.
  intros Hw HL.
  pose proof (api_render_run w s
                (Page.body_of (Client.RenderMetrics duration (Client.flameCount d)))
                duration Hw eq_refl) as Hrun.
  cbv zeta in Hrun.
  assert (Hf : field (Page.body_of (Client.RenderMetrics duration (Client.flameCount d)))
                 "flameCount" = of_Z (Client.flameCount d)) by reflexivity.
  rewrite Hf, ceil_of_Z in Hrun.
  set (n := Qceiling (inject_Z (Client.flameCount d) / inject_Z 5)) in *.
  assert (Hn : 0 <= n) by (by apply ceil_div_nonneg_Z).
  eexists _, _, _. split; [exact Hrun|]. split; [reflexivity|].
  split.
  { cbn [after_rounds registry with_registry].
    by apply (observed_at_add "embers_render_duration_ms" duration buckets). }
  split; [reflexivity|].
  rewrite length_fmap, length_seq. cbn [JS.trip_count].
  rewrite Qceiling_Z, Z2Nat.id by lia.
  split; reflexivity.
Qed.

Lemma render_round_trip_witness :
  exists (resp : Response) (recs : list LogRecord) (s' : Server),
    api_render (rt := Sample.runtime) Sample.world
        (Page.body_of (Client.RenderMetrics (5 # 2) 10)) Sample.server
      = (Returned resp, s')
    /\ status resp = 200%nat
    /\ observed_at (registry s') "embers_render_duration_ms"
       = (5 # 2) :: observed_at (registry Sample.server) "embers_render_duration_ms"
    /\ console s' = console Sample.server ++ recs
    /\ Z.of_nat (length recs) = Qceiling (inject_Z 10 / inject_Z 5)
    /\ Client.logsGenerated
         (Page.renderMetrics_done true (Client.start Sample.world 800 600))
       = 0 + Z.of_nat (length recs).
Proof.
  exact (render_round_trip (rt := Sample.runtime) Sample.world Sample.server
           (Client.start Sample.world 800 600) (5 # 2)
           ltac:(exact wired_instruments) ltac:(simpl; lia)).
Defined.
